(* ===================================================================== *)
(* pycsw/core/admin.py: record loading, export and harvest refresh.       *)
(*                                                                       *)
(* A shallow embedding of load_records, export_records and                *)
(* refresh_harvested_records.  Python strings are Rocq strings, the       *)
(* Python sets loaded_files / exported_files are gset string, calls to    *)
(* collaborators (repository, parsers, file system, CSW client) are       *)
(* explicit parameters, and every call and log line is recorded in a      *)
(* trace of events so that claims about "what was called" can be stated.  *)
(* ===================================================================== *)

From Stdlib Require Import String Ascii List ZArith Lia DecimalString.
From stdpp Require Import base list sorting gmap strings.

Local Open Scope string_scope.
Local Open Scope list_scope.
Set Warnings "-register-all".

(* --------------------------------------------------------------------- *)
(* Python str: comparison, startswith/endswith, substring test            *)
(* --------------------------------------------------------------------- *)

Module PyStr.

(** [a <= b] on Python strings: code-point-wise lexicographic order. *)
Definition le (a b : string) : Prop := String.leb a b = true.

#[global] Instance le_dec : RelDecision le.
Proof. intros a b. unfold le. apply _. Defined.

(** [s.startswith(p)] *)
Fixpoint startswith (p s : string) : bool :=
  match p, s with
  | EmptyString, _ => true
  | String a p', String b s' => if Ascii.eqb a b then startswith p' s' else false
  | String _ _, EmptyString => false
  end.

(** [s.endswith(suffix)]: some tail of [s] is [suffix]. *)
Fixpoint endswith (suffix s : string) : bool :=
  if String.eqb s suffix then true
  else match s with
       | EmptyString => false
       | String _ s' => endswith suffix s'
       end.

(** [sub in s] *)
Fixpoint contains (sub s : string) : bool :=
  if startswith sub s then true
  else match s with
       | EmptyString => false
       | String _ s' => contains sub s'
       end.

(** [s.rstrip(c)] for a single character [c]. *)
Fixpoint rstrip (c : ascii) (s : string) : string :=
  match s with
  | EmptyString => EmptyString
  | String a s' =>
      match rstrip c s' with
      | EmptyString => if Ascii.eqb a c then EmptyString else String a EmptyString
      | r => String a r
      end
  end.

(** every character of [s] is [c] (true on the empty string) *)
Fixpoint all_char (c : ascii) (s : string) : bool :=
  match s with
  | EmptyString => true
  | String a s' => Ascii.eqb a c && all_char c s'
  end.

End PyStr.

(** [sorted(l)] on a list of str.  Python's sort is a stable merge sort; on
    strings, whose order is total and antisymmetric, every correct sort
    returns the same list. *)
Definition sorted (l : list string) : list string := merge_sort PyStr.le l.

(* --------------------------------------------------------------------- *)
(* The file system seen by the scanner (os.path.isfile, os.walk, glob)    *)
(* --------------------------------------------------------------------- *)

(** A directory lists its entries in the order the operating system
    enumerates them (os.scandir order), which the code must not rely on. *)
Inductive node : Type :=
| File : node
| Dir : list (string * node) -> node.

Definition is_dir (n : node) : bool :=
  match n with Dir _ => true | File => false end.

(** [os.path.isfile(path)], where [target] is what [path] designates
    ([None]: no such path). *)
Definition os_path_isfile (target : option node) : bool :=
  match target with Some File => true | _ => false end.

(** posixpath.join(a, b) *)
Definition os_path_join (a b : string) : string :=
  if PyStr.startswith "/" b then b
  else if String.eqb a EmptyString || PyStr.endswith "/" a then a +:+ b
  else a +:+ "/" +:+ b.

(** names of the sub-directories / of the other entries of a listing *)
Definition dirnames (entries : list (string * node)) : list string :=
  fst <$> filter (fun e => is_dir (snd e) = true) entries.
Definition filenames (entries : list (string * node)) : list string :=
  fst <$> filter (fun e => is_dir (snd e) = false) entries.

(** [os.walk(top)], top-down: one triple (root, dirs, files) per directory.
    Walking something that is not a directory yields nothing. *)
Fixpoint os_walk (top : string) (n : node) {struct n}
  : list (string * (list string * list string)) :=
  match n with
  | File => []
  | Dir entries =>
      (top, (dirnames entries, filenames entries)) ::
      (fix walk_entries (es : list (string * node)) :=
         match es with
         | [] => []
         | (name, child) :: es' =>
             os_walk (os_path_join top name) child ++ walk_entries es'
         end) entries
  end.

(** fnmatch.fnmatchcase for patterns built from literal characters, [*]
    and [?] (the two patterns of load_records have no bracket). *)
Fixpoint fnmatch (pat name : string) {struct pat} : bool :=
  match pat with
  | EmptyString => match name with EmptyString => true | _ => false end
  | String c pat' =>
      if Ascii.eqb c "*" then
        (fix star (n : string) : bool :=
           fnmatch pat' n ||
           match n with EmptyString => false | String _ n' => star n' end) name
      else if Ascii.eqb c "?" then
        match name with EmptyString => false | String _ n' => fnmatch pat' n' end
      else
        match name with
        | EmptyString => false
        | String d n' => Ascii.eqb c d && fnmatch pat' n'
        end
  end.

(** glob._ishidden *)
Definition ishidden (name : string) : bool := PyStr.startswith "." name.

(** The directory part glob splits off [os.path.join(d, pattern)]:
    os.path.split keeps everything up to the last slash and strips the
    trailing slashes unless the head consists of slashes only. *)
Definition glob_dirname (d : string) : string :=
  if String.eqb d EmptyString then EmptyString
  else
    let head := if PyStr.endswith "/" d then d else d +:+ "/" in
    if PyStr.all_char "/" head then head else PyStr.rstrip "/" head.

(** What load_records can see of the file system: what [xml_dirpath]
    designates ([None]: no such path), the working directory, which glob
    lists for an empty directory part, and, for a directory part that
    holds a glob metacharacter, the paths that glob expands it to, in the
    order glob yields them, each with what it designates. *)
Record fs_view : Type := mkView {
  designated : option node;
  working_dir : option node;
  glob_dirs : string -> list (string * option node)
}.

(** the view of a path without metacharacters that designates [target] *)
Definition plain_view (target : option node) : fs_view :=
  mkView target None (fun _ => []).

(** What os.path.isfile and os.walk find at [xml_dirpath]: nothing at the
    empty path. *)
Definition target_of (xml_dirpath : string) (fs : fs_view) : option node :=
  if String.eqb xml_dirpath EmptyString then None else designated fs.

(** glob.has_magic: one of the characters * ? [ occurs *)
Fixpoint has_magic (s : string) : bool :=
  match s with
  | EmptyString => false
  | String c s' =>
      Ascii.eqb c "*" || Ascii.eqb c "?" || Ascii.eqb c "[" || has_magic s'
  end.

(** glob._glob1: the names of a directory that are not hidden (unless the
    pattern is) and match the pattern, in enumeration order; nothing when
    the path is not a directory. *)
Definition glob1 (n : option node) (pattern : string) : list string :=
  match n with
  | Some (Dir entries) =>
      filter (fun name => (if ishidden pattern then true
                           else negb (ishidden name)) && fnmatch pattern name = true)
             (fst <$> entries)
  | _ => []
  end.

(** The directories that [glob(os.path.join(xml_dirpath, pattern))]
    lists: the working directory when the directory part is empty, the
    expansions of the directory part when it holds a metacharacter, and
    the directory itself otherwise. *)
Definition glob_listings (xml_dirpath : string) (fs : fs_view)
  : list (string * option node) :=
  let dirname := glob_dirname xml_dirpath in
  if String.eqb dirname EmptyString then [(EmptyString, working_dir fs)]
  else if has_magic dirname then glob_dirs fs dirname
  else [(dirname, target_of xml_dirpath fs)].

(** [glob(os.path.join(xml_dirpath, pattern))] for a pattern that is a
    file name pattern (it holds no slash): for each listed directory, the
    matching names joined to its path. *)
Definition glob (xml_dirpath : string) (fs : fs_view) (pattern : string)
  : list string :=
  glob_listings xml_dirpath fs ≫= fun '(dirname, n) =>
    os_path_join dirname <$> glob1 n pattern.

(** Lines 337-350 of load_records: the candidate list [file_list]. *)
Definition scan_files (xml_dirpath : string) (fs : fs_view)
    (recursive : bool) : list string :=
  if os_path_isfile (target_of xml_dirpath fs) then [xml_dirpath]
  else if recursive then
    match target_of xml_dirpath fs with
    | Some n =>
        os_walk xml_dirpath n ≫= fun '(root, (_, files)) =>
          os_path_join root <$>
            filter (fun mfile => PyStr.endswith ".xml" mfile = true) files
    | None => []
    end
  else glob xml_dirpath fs "*.xml" ++ glob xml_dirpath fs "*.json".

(* --------------------------------------------------------------------- *)
(* Records, exceptions, events                                           *)
(* --------------------------------------------------------------------- *)

(** [record.xml] is a str or, on some back ends, bytes. *)
Inductive raw_document : Type :=
| XmlStr (s : string)
| XmlBytes (b : list Byte.byte).

(** The columns of the records table that the three operations read
    (Table(...) in setup_db).  [anytext] is NOT NULL in the table; a parsed
    record that has none cannot be stored. *)
Record record : Type := mkRecord {
  identifier : string;
  typename : string;
  schema : string;
  mdsource : string;
  source : string;
  insert_date : string;
  xml : raw_document;
  anytext : option string;
  metadata_type : string
}.

(** Why the database refused a statement. *)
Inductive db_error_kind : Type := DuplicateIdentifier | StorageFailure.

(** The exception classes the code distinguishes; all are subclasses of
    Exception.  An OSError carries the text that str(err) gives. *)
Inductive exn : Type :=
| JSONDecodeError (msg : string)
| XMLSyntaxError (msg : string)
| DBAPIError (kind : db_error_kind) (args : list string)
| RuntimeError (msg : string)
| OtherException (msg : string)
| OSError (str : string).

Definition is_JSONDecodeError (e : exn) : bool :=
  match e with JSONDecodeError _ => true | _ => false end.
Definition is_XMLSyntaxError (e : exn) : bool :=
  match e with XMLSyntaxError _ => true | _ => false end.

(** an insert failure that is the duplicate-identifier conflict *)
Definition is_conflict (e : exn) : bool :=
  match e with DBAPIError DuplicateIdentifier _ => true | _ => false end.

(** Result of a call: a value, or an exception on its way up. *)
Inductive outcome (A : Type) : Type :=
| Return (a : A)
| Raise (e : exn).
Arguments Return {A} a.
Arguments Raise {A} e.

Inductive level : Type := INFO | ERROR | EXCEPTION.

Inductive logarg : Type :=
| AStr (s : string)
| AInt (n : nat)
| AZ (z : Z)
| AExn (e : exn).

(** decoded content of a metadata file: parsed JSON or an XML tree *)
Inductive document : Type :=
| JsonDoc (text : string)
| XmlDoc (text : string).

(** What a run does to the outside world, in order.  The reads of a file
    (open and json.load, etree.parse), metadata.parse_record and the
    repository calls are recorded with the file being processed and with
    their result. *)
Inductive event : Type :=
| Log (lvl : level) (fmt : string) (args : list logarg)
| JsonLoad (recfile : string) (res : outcome document)
| EtreeParse (recfile : string) (res : outcome document)
| ParseRecord (recfile : string) (res : outcome (list record))
| RepoInsert (recfile : string) (rec : record) (res : outcome unit)
| RepoUpdate (recfile : string) (rec : record) (res : outcome unit)
| CswConnect (url : string) (res : outcome unit)
| CswHarvest (src sch : string) (res : outcome unit).

(** The double quote character, and the messages that hold one. *)
Definition dquote : string := String (Ascii.ascii_of_nat 34) EmptyString.
Definition msg_not_well_formed : string :=
  "XML document " +:+ dquote +:+ "%s" +:+ dquote +:+ " is not well-formed".
Definition msg_could_not_parse : string :=
  "Could not parse " +:+ dquote +:+ "%s" +:+ dquote +:+ " as an XML record".

(* --------------------------------------------------------------------- *)
(* load_records                                                           *)
(* --------------------------------------------------------------------- *)

(** The collaborators of load_records: the constructor
    repository.Repository(database, context, table=table), which gives
    the repository (of state [Repo]) or raises; the insert and update of
    the repository; json.load on the opened file; etree.parse;
    metadata.parse_record; util.get_today_and_now; and the database and
    table names, which also appear in log lines. *)
Record LoadEnv (Repo : Type) : Type := mkLoadEnv {
  repository : outcome Repo;
  repo_insert : Repo -> record -> string -> string -> Repo * outcome unit;
  repo_update : Repo -> record -> Repo * outcome unit;
  json_load : string -> outcome document;
  etree_parse : string -> outcome document;
  parse_record : document -> Repo -> outcome (list record);
  get_today_and_now : string;
  database : string;
  table : string
}.
Arguments mkLoadEnv {Repo} _ _ _ _ _ _ _ _ _.
Arguments repository {Repo} _.
Arguments repo_insert {Repo} _ _ _ _ _.
Arguments repo_update {Repo} _ _ _.
Arguments json_load {Repo} _ _.
Arguments etree_parse {Repo} _ _.
Arguments parse_record {Repo} _ _ _.
Arguments get_today_and_now {Repo} _.
Arguments database {Repo} _.
Arguments table {Repo} _.

Section LoadRecords.

Context {Repo : Type} (env : LoadEnv Repo).

(** State of the run: the repository, the set [loaded_files], and the
    events so far (oldest first). *)
Record load_state : Type := mkLoad {
  repo : Repo;
  loaded_files : gset string;
  trace : list event
}.

Definition emit (ev : event) (s : load_state) : load_state :=
  mkLoad (repo s) (loaded_files s) (trace s ++ [ev]).
Definition set_repo (r : Repo) (s : load_state) : load_state :=
  mkLoad r (loaded_files s) (trace s).
Definition add_loaded (recfile : string) (s : load_state) : load_state :=
  mkLoad (repo s) ({[recfile]} ∪ loaded_files s) (trace s).

(** The error line of lines 394-399. *)
Definition not_inserted (recfile : string) (err : exn) : event :=
  match err with
  | DBAPIError _ (a0 :: _) =>
      Log ERROR "ERROR: %s not inserted: %s" [AStr recfile; AStr a0]
  | _ => Log ERROR "ERROR: %s not inserted: %s" [AStr recfile; AExn err]
  end.

(** The log line of lines 379-380. *)
Definition inserting (rec : record) : event :=
  Log INFO "Inserting %s %s into database %s, table %s ...."
      [AStr (typename rec); AStr (identifier rec); AStr (database env); AStr (table env)].

(** Body of [for rec in record] (lines 379-399). *)
Definition insert_record (force_update : bool) (recfile : string)
    (rec : record) (s : load_state) : load_state * outcome unit :=
  let s := emit (inserting rec) s in
  match repo_insert env (repo s) rec "local" (get_today_and_now env) with
  | (r, Return _) =>
      let s := emit (RepoInsert recfile rec (Return tt)) (set_repo r s) in
      let s := add_loaded recfile s in
      (emit (Log INFO "Inserted %s" [AStr recfile]) s, Return tt)
  | (r, Raise err) =>
      let s := emit (RepoInsert recfile rec (Raise err)) (set_repo r s) in
      if force_update then
        let s := emit (Log INFO "Record exists. Updating." []) s in
        match repo_update env (repo s) rec with
        | (r', Return _) =>
            let s := emit (RepoUpdate recfile rec (Return tt)) (set_repo r' s) in
            let s := emit (Log INFO "Updated %s" [AStr recfile]) s in
            (add_loaded recfile s, Return tt)
        | (r', Raise e) =>
            (emit (RepoUpdate recfile rec (Raise e)) (set_repo r' s), Raise e)
        end
      else (emit (not_inserted recfile err) s, Return tt)
  end.

(** [for rec in record: ...]; an exception leaves the loop. *)
Fixpoint insert_records (force_update : bool) (recfile : string)
    (recs : list record) (s : load_state) : load_state * outcome unit :=
  match recs with
  | [] => (s, Return tt)
  | rec :: recs' =>
      match insert_record force_update recfile rec s with
      | (s', Return _) => insert_records force_update recfile recs' s'
      | (s', Raise e) => (s', Raise e)
      end
  end.

(** What the try statement of lines 360-370 leaves: the document, a
    [continue], or an exception that no clause of the statement caught.
    An exception raised by etree.parse is raised inside the handler of
    JSONDecodeError, where the later except clauses do not apply. *)
Inductive read_result : Type :=
| ReadDoc (d : document)
| ReadContinue (ev : event)
| ReadRaise (e : exn).

Definition read_document (recfile : string) : read_result :=
  match json_load env recfile with
  | Return d => ReadDoc d
  | Raise err =>
      if is_JSONDecodeError err then
        match etree_parse env recfile with
        | Return d => ReadDoc d
        | Raise e => ReadRaise e
        end
      else if is_XMLSyntaxError err then
        ReadContinue (Log ERROR msg_not_well_formed [AStr recfile])
      else
        ReadContinue (Log EXCEPTION msg_not_well_formed [AStr recfile])
  end.

(** The calls of the try statement of lines 360-370, as events: open and
    json.load, and etree.parse when the handler of JSONDecodeError runs. *)
Definition read_events (recfile : string) : list event :=
  JsonLoad recfile (json_load env recfile) ::
  match json_load env recfile with
  | Return _ => []
  | Raise err =>
      if is_JSONDecodeError err
      then [EtreeParse recfile (etree_parse env recfile)]
      else []
  end.

Definition emit_all (evs : list event) (s : load_state) : load_state :=
  mkLoad (repo s) (loaded_files s) (trace s ++ evs).

(** Body of [for recfile in sorted(file_list)] (lines 356-399). *)
Definition process_file (force_update : bool) (total counter : nat)
    (recfile : string) (s : load_state) : load_state * outcome unit :=
  let s := emit (Log INFO "Processing file %s (%d of %d)"
                     [AStr recfile; AInt counter; AInt total]) s in
  let s := emit_all (read_events recfile) s in
  match read_document recfile with
  | ReadRaise e => (s, Raise e)
  | ReadContinue ev => (emit ev s, Return tt)
  | ReadDoc metadata_record =>
      let parsed := parse_record env metadata_record (repo s) in
      let s := emit (ParseRecord recfile parsed) s in
      match parsed with
      | Raise _ =>
          (emit (Log EXCEPTION msg_could_not_parse [AStr recfile]) s, Return tt)
      | Return recs => insert_records force_update recfile recs s
      end
  end.

(** The loop over the sorted list; [counter] is the number of files
    already started. *)
Fixpoint process_files (force_update : bool) (total counter : nat)
    (files : list string) (s : load_state) : load_state * outcome unit :=
  match files with
  | [] => (s, Return tt)
  | recfile :: files' =>
      match process_file force_update total (S counter) recfile s with
      | (s', Return _) => process_files force_update total (S counter) files' s'
      | (s', Raise e) => (s', Raise e)
      end
  end.

(** Lines 352-401: the run over a candidate list.  [tuple(loaded_files)]
    lists the elements of the set in an order Python does not specify;
    [elements] fixes one. *)
Definition load_file_list (file_list : list string) (force_update : bool)
    (r : Repo) : load_state * outcome (list string) :=
  let total := length file_list in
  match process_files force_update total 0 (sorted file_list) (mkLoad r ∅ []) with
  | (s, Return _) => (s, Return (elements (loaded_files s)))
  | (s, Raise e) => (s, Raise e)
  end.

(** load_records(context, database, table, xml_dirpath, recursive,
    force_update), [fs] being what the scanner sees of the file system.
    The repository is created first (line 335); when that raises there
    is no run state. *)
Definition load_records (xml_dirpath : string) (fs : fs_view)
    (recursive force_update : bool)
    : option load_state * outcome (list string) :=
  match repository env with
  | Raise e => (None, Raise e)
  | Return r =>
      let '(s, res) :=
        load_file_list (scan_files xml_dirpath fs recursive) force_update r in
      (Some s, res)
  end.

End LoadRecords.

Arguments load_state : clear implicits.

(** the events of a run, none when the repository could not be created *)
Definition trace_of {Repo} (run : option (load_state Repo)) : list event :=
  match run with Some s => trace s | None => [] end.

(** The file whose processing an event announces (line 358). *)
Definition started (ev : event) : option string :=
  match ev with
  | Log INFO fmt (AStr recfile :: _) =>
      if String.eqb fmt "Processing file %s (%d of %d)" then Some recfile else None
  | _ => None
  end.

(** the files whose processing was started, in order *)
Definition processed_files (tr : list event) : list string := omap started tr.

(** the repository calls of a trace *)
Definition is_update (ev : event) : bool :=
  match ev with RepoUpdate _ _ _ => true | _ => false end.
Definition is_insert (ev : event) : bool :=
  match ev with RepoInsert _ _ _ => true | _ => false end.

(* --------------------------------------------------------------------- *)
(* A repository to run the code against                                   *)
(* --------------------------------------------------------------------- *)

(** An in-memory repository.Repository: the rows keyed by identifier, and
    the number of statements for which the connection is still down. *)
Module MemRepo.

Record t : Type := mk { rows : gmap string record; outage : nat }.

(** the row as stored: the record with its provenance and insert date *)
Definition stamp (rec : record) (src now : string) : record :=
  mkRecord (identifier rec) (typename rec) (schema rec) src (source rec)
           now (xml rec) (anytext rec) (metadata_type rec).

(** Modelled from the spec: Repository.insert of pycsw.core.repository is
    not part of admin.py.  Section 4.4: insert(record, source, timestamp)
    -> ok | ConflictError | StorageError, identifier being the unique key;
    section 7 counts constraint violations and connectivity loss as
    storage errors.  A record without [anytext] violates the NOT NULL
    constraint of the table (setup_db). *)
Definition insert (r : t) (rec : record) (src now : string)
  : t * outcome unit :=
  match outage r with
  | S k => (mk (rows r) k,
            Raise (DBAPIError StorageFailure ["server closed the connection"]))
  | O =>
      match anytext rec with
      | None => (r, Raise (DBAPIError StorageFailure
                            ["NOT NULL constraint failed: records.anytext"]))
      | Some _ =>
          match rows r !! identifier rec with
          | Some _ => (r, Raise (DBAPIError DuplicateIdentifier
                                   ["UNIQUE constraint failed: records.identifier"]))
          | None => (mk (<[identifier rec := stamp rec src now]> (rows r)) 0,
                     Return tt)
          end
      end
  end.

(** Modelled from the spec: Repository.update of pycsw.core.repository is
    not part of admin.py.  Section 4.4: update(record) -> ok |
    NotFoundError | StorageError; section 4.3: the update replaces the
    stored record and preserves its original insert timestamp. *)
Definition update (r : t) (rec : record) : t * outcome unit :=
  match outage r with
  | S k => (mk (rows r) k,
            Raise (DBAPIError StorageFailure ["server closed the connection"]))
  | O =>
      match anytext rec with
      | None => (r, Raise (DBAPIError StorageFailure
                            ["NOT NULL constraint failed: records.anytext"]))
      | Some _ =>
          match rows r !! identifier rec with
          | Some old =>
              (mk (<[identifier rec :=
                       stamp rec (mdsource old) (insert_date old)]> (rows r)) 0,
               Return tt)
          | None => (r, Raise (OtherException "NotFoundError"))
          end
      end
  end.

Definition empty : t := mk ∅ 0.

End MemRepo.

(* --------------------------------------------------------------------- *)
(* export_records                                                         *)
(* --------------------------------------------------------------------- *)

Definition newline : string := String (Ascii.ascii_of_nat 10) EmptyString.

(** The first string written to every exported file (line 456). *)
Definition xml_declaration : string :=
  "<?xml version=" +:+ dquote +:+ "1.0" +:+ dquote +:+ " encoding=" +:+
  dquote +:+ "UTF-8" +:+ dquote +:+ "?>" +:+ newline.

(** What the operating system does with [open(filename, 'w')] and the two
    writes of one record: all succeed; open raises; or a write raises after
    [written] characters of the output reached the file. *)
Inductive io_plan : Type :=
| IoOk
| OpenFails (e : exn)
| WriteFails (written : nat) (e : exn).

(** The files of the output directory: path to content. *)
Record export_state : Type := mkExport {
  disk : gmap string string;
  exported_files : gset string;
  etrace : list event
}.

Definition elog (ev : event) (s : export_state) : export_state :=
  mkExport (disk s) (exported_files s) (etrace s ++ [ev]).
Definition set_disk (d : gmap string string) (s : export_state) : export_state :=
  mkExport d (exported_files s) (etrace s).
Definition add_exported (filename : string) (s : export_state) : export_state :=
  mkExport (disk s) ({[filename]} ∪ exported_files s) (etrace s).

(** Lines 442-445. *)
Definition extension_of (metadata_type : string) : string :=
  if PyStr.contains "json" metadata_type then "json" else "xml".

(** The collaborators of export_records: the constructor
    repository.Repository(database, context, table=table), records.count()
    and records.all() on the query, each of which returns or raises;
    util.secure_filename; bytes.decode('utf-8') ([None]: the bytes are not
    UTF-8, UnicodeDecodeError); the paths at which something that is not a
    regular file is in the way (a directory, say), where os.path.exists
    holds although [disk] has no file; what the file system does with the
    open and the writes of the n-th record; and what os.remove does in the
    handler of the n-th record ([None]: it returns). *)
Record ExportEnv : Type := mkExportEnv {
  export_repository : outcome unit;
  records_count : outcome nat;
  records_all : outcome (list record);
  secure_filename : string -> string;
  decode_utf8 : list Byte.byte -> option string;
  occupied : string -> bool;
  io_fault : nat -> io_plan;
  remove_fault : nat -> option exn
}.

Section ExportRecords.

Context (env : ExportEnv).

(** Line 447. *)
Definition export_filename (dirpath : string) (rec : record) : string :=
  os_path_join dirpath
    (secure_filename env (identifier rec) +:+ "." +:+ extension_of (metadata_type rec)).

(** Lines 451-454: [None] when decoding raises. *)
Definition str_xml_of (rec : record) : option string :=
  match xml rec with
  | XmlStr s => Some s
  | XmlBytes b => decode_utf8 env b
  end.

(** os.path.exists(filename) *)
Definition os_path_exists (filename : string) (s : export_state) : bool :=
  bool_decide (is_Some (disk s !! filename)) || occupied env filename.

(** The except clause of lines 458-464 in the pass for the n-th record.
    os.remove is called in the handler, outside any try: its error
    leaves the loop. *)
Definition write_failed (n : nat) (filename : string) (s : export_state)
  : export_state * outcome unit :=
  let s := elog (Log EXCEPTION "Error writing %s to disk" [AStr filename]) s in
  if os_path_exists filename s then
    match remove_fault env n with
    | None => (set_disk (delete filename (disk s)) s, Return tt)
    | Some e => (s, Raise e)
    end
  else (s, Return tt).

(** Body of [for record in records.all()] for the n-th record
    (lines 428-466). *)
Definition export_record (dirpath : string) (n : nat) (rec : record)
    (s : export_state) : export_state * outcome unit :=
  let s := elog (Log INFO "Processing %s" [AStr (identifier rec)]) s in
  let filename := export_filename dirpath rec in
  let s := elog (Log INFO "Writing to file %s" [AStr filename]) s in
  match str_xml_of rec with
  | None => write_failed n filename s
  | Some str_xml =>
      match io_fault env n with
      | IoOk =>
          (add_exported filename
             (set_disk (<[filename := xml_declaration +:+ str_xml]> (disk s)) s),
           Return tt)
      | OpenFails _ => write_failed n filename s
      | WriteFails written _ =>
          write_failed n filename
            (set_disk (<[filename :=
                           String.substring 0 written (xml_declaration +:+ str_xml)]>
                         (disk s)) s)
      end
  end.

(** [for record in records.all(): ...]; an exception leaves the loop. *)
Fixpoint export_loop (dirpath : string) (n : nat) (records : list record)
    (s : export_state) : export_state * outcome unit :=
  match records with
  | [] => (s, Return tt)
  | rec :: records' =>
      match export_record dirpath n rec s with
      | (s', Return _) => export_loop dirpath (S n) records' s'
      | (s', Raise e) => (s', Raise e)
      end
  end.

(** Lines 427-468: the loop and the returned tuple. *)
Definition export_all (dirpath : string) (s : export_state)
  : export_state * outcome (list string) :=
  match records_all env with
  | Raise e => (s, Raise e)
  | Return records =>
      match export_loop dirpath 0 records s with
      | (s', Return _) => (s', Return (elements (exported_files s')))
      | (s', Raise e) => (s', Raise e)
      end
  end.

(** export_records: [dirpath] is os.path.abspath(xml_dirpath),
    [dir_exists] the answer of os.path.exists(dirpath), [makedirs] the
    result of os.makedirs and [d] the files on the disk.  Only an OSError
    of os.makedirs is turned into the RuntimeError of line 425. *)
Definition export_records (database table : string) (dirpath : string)
    (dir_exists : bool) (makedirs : outcome unit)
    (d : gmap string string) : export_state * outcome (list string) :=
  match export_repository env with
  | Raise e => (mkExport d ∅ [], Raise e)
  | Return _ =>
      let s := mkExport d ∅
                 [Log INFO "Querying database %s, table %s ...."
                      [AStr database; AStr table]] in
      match records_count env with
      | Raise e => (s, Raise e)
      | Return count =>
          let s := elog (Log INFO ("Found %d records" +:+ newline) [AInt count]) s in
          let s := elog (Log INFO ("Exporting records" +:+ newline) []) s in
          if dir_exists then export_all dirpath s
          else
            let s := elog (Log INFO "Directory %s does not exist.  Creating..."
                               [AStr dirpath]) s in
            match makedirs with
            | Return _ => export_all dirpath s
            | Raise (OSError str_err) =>
                (elog (Log EXCEPTION "Could not create directory" []) s,
                 Raise (RuntimeError
                          ("Could not create " +:+ dirpath +:+ " " +:+ str_err)))
            | Raise e => (s, Raise e)
            end
      end
  end.

End ExportRecords.

(** What the n-th record leaves in its file when decoding, open and both
    writes succeed; [None] when one of them raises. *)
Definition written_text (env : ExportEnv) (n : nat) (rec : record) : option string :=
  match str_xml_of env rec, io_fault env n with
  | Some str_xml, IoOk => Some (xml_declaration +:+ str_xml)
  | _, _ => None
  end.

(* --------------------------------------------------------------------- *)
(* refresh_harvested_records                                              *)
(* --------------------------------------------------------------------- *)

(** Lines 499-500. *)
Definition harvest_schema (schema : string) : string :=
  if String.eqb schema "http://www.isotc211.org/2005/gmd"
  then "http://www.isotc211.org/schemas/2005/gmd/"
  else schema.

(** The collaborators of refresh_harvested_records: the constructor
    repository.Repository(database, context, table=table); repos.query
    with the constraint's where clause, which gives the count as the
    repository writes it and the records, or raises (as does unpacking a
    result that is not a pair); int(count); the constructor
    CatalogueServiceWeb(url); and the n-th call of csw.harvest (its value
    is csw.response).  The records are rows of the table, with its
    columns. *)
Record HarvestEnv : Type := mkHarvestEnv {
  harvest_repository : outcome unit;
  repo_query : string -> outcome (string * list record);
  count_int : string -> outcome Z;
  csw_connect : string -> outcome unit;
  csw_harvest : nat -> string -> string -> outcome string
}.

Section RefreshHarvested.

Context (env : HarvestEnv).

(** Body of [for rec in records] (lines 486-505). *)
Definition refresh_record (n : nat) (rec : record) : list event :=
  let sch := harvest_schema (schema rec) in
  Log INFO "Harvesting %s (identifier = %s) ..."
      [AStr (source rec); AStr (identifier rec)] ::
  match csw_harvest env n (source rec) sch with
  | Return response =>
      [CswHarvest (source rec) sch (Return tt); Log INFO response []]
  | Raise err =>
      [CswHarvest (source rec) sch (Raise err); Log EXCEPTION "Could not harvest" []]
  end.

Fixpoint refresh_loop (n : nat) (records : list record) : list event :=
  match records with
  | [] => []
  | rec :: records' => refresh_record n rec ++ refresh_loop (S n) records'
  end.

Definition refresh_harvested_records (url : string) : list event * outcome unit :=
  match harvest_repository env with
  | Raise err => ([], Raise err)
  | Return _ =>
      match repo_query env "mdsource != 'local'" with
      | Raise err => ([], Raise err)
      | Return (count, records) =>
          match count_int env count with
          | Raise err => ([], Raise err)
          | Return n =>
              if (0 <? n)%Z then
                let tr := [Log INFO "Refreshing %s harvested records" [AStr count]] in
                match csw_connect env url with
                | Return _ =>
                    (tr ++ [CswConnect url (Return tt)] ++ refresh_loop 0 records,
                     Return tt)
                | Raise err => (tr ++ [CswConnect url (Raise err)], Raise err)
                end
              else ([Log INFO "No harvested records" []], Return tt)
          end
      end
  end.

End RefreshHarvested.

(** the same collaborators with another csw.harvest *)
Definition with_csw_harvest (env : HarvestEnv)
    (harvest : nat -> string -> string -> outcome string) : HarvestEnv :=
  mkHarvestEnv (harvest_repository env) (repo_query env) (count_int env)
               (csw_connect env) harvest.

(** the (source, schema) pairs handed to csw.harvest, in call order *)
Definition harvest_call (ev : event) : option (string * string) :=
  match ev with CswHarvest src sch _ => Some (src, sch) | _ => None end.
Definition harvest_calls (tr : list event) : list (string * string) :=
  omap harvest_call tr.

Definition is_remote (ev : event) : bool :=
  match ev with CswConnect _ _ | CswHarvest _ _ _ => true | _ => false end.

(* --------------------------------------------------------------------- *)
(* Specification vocabulary for the scanner                               *)
(* --------------------------------------------------------------------- *)

(** [tree_file top n root name]: in the tree [n] reached as [top], the
    directory reached as [root] holds a non-directory entry [name]. *)
Inductive tree_file : string -> node -> string -> string -> Prop :=
| tree_file_here top entries name :
    (name, File) ∈ entries ->
    tree_file top (Dir entries) top name
| tree_file_below top entries d child root name :
    (d, child) ∈ entries ->
    tree_file (os_path_join top d) child root name ->
    tree_file top (Dir entries) root name.

(** Two trees that hold the same entries, enumerated in different orders. *)
Inductive reorder : node -> node -> Prop :=
| reorder_file : reorder File File
| reorder_dir es es' : reorder_entries es es' -> reorder (Dir es) (Dir es')
with reorder_entries : list (string * node) -> list (string * node) -> Prop :=
| reorder_nil : reorder_entries [] []
| reorder_skip name c c' es es' :
    reorder c c' -> reorder_entries es es' ->
    reorder_entries ((name, c) :: es) ((name, c') :: es')
| reorder_swap e1 e2 es :
    reorder_entries (e1 :: e2 :: es) (e2 :: e1 :: es)
| reorder_trans es1 es2 es3 :
    reorder_entries es1 es2 -> reorder_entries es2 es3 -> reorder_entries es1 es3.

Scheme reorder_mut := Minimality for reorder Sort Prop
  with reorder_entries_mut := Minimality for reorder_entries Sort Prop.
Combined Scheme reorder_mutind from reorder_mut, reorder_entries_mut.

(** Two views of the same file system, enumerated in different orders:
    the directories are reordered, and so are the expansions of glob. *)
Inductive reorder_target : option node -> option node -> Prop :=
| reorder_none : reorder_target None None
| reorder_some n n' : reorder n n' -> reorder_target (Some n) (Some n').

Record reorder_view (fs fs' : fs_view) : Prop := mkReorderView {
  reorder_designated : reorder_target (designated fs) (designated fs');
  reorder_working_dir : reorder_target (working_dir fs) (working_dir fs');
  reorder_glob_dirs : forall dirname,
    exists dirs,
      Forall2 (fun a b => a.1 = b.1 /\ reorder_target a.2 b.2)
              (glob_dirs fs dirname) dirs /\
      dirs ≡ₚ glob_dirs fs' dirname
}.

(** no glob metacharacter in a pattern fragment *)
Fixpoint literal (s : string) : bool :=
  match s with
  | EmptyString => true
  | String c s' => negb (Ascii.eqb c "*") && negb (Ascii.eqb c "?") && literal s'
  end.

(** the files of one directory that recursive mode keeps *)
Definition xml_files_of (root : string) (files : list string) : list string :=
  os_path_join root <$> filter (fun mfile => PyStr.endswith ".xml" mfile = true) files.

(** the candidate list of recursive mode *)
Definition walk_xml (top : string) (n : node) : list string :=
  os_walk top n ≫= fun '(root, (_, files)) => xml_files_of root files.

(** the names that [glob] keeps for one of the two patterns of load_records *)
Definition glob_keeps (suffix name : string) : Prop :=
  ishidden name = false /\ PyStr.endswith suffix name = true.

(* --------------------------------------------------------------------- *)
(* Specification vocabulary for the runs                                  *)
(* --------------------------------------------------------------------- *)

(** the file a repository call was made for *)
Definition repo_file (ev : event) : option string :=
  match ev with
  | RepoInsert f _ _ | RepoUpdate f _ _ => Some f
  | _ => None
  end.

(** [ev] is a repository call for a record of file [f] that returned:
    the record was inserted, or it was updated. *)
Definition stores (f : string) (ev : event) : Prop :=
  exists rec, ev = RepoInsert f rec (Return tt) \/ ev = RepoUpdate f rec (Return tt).

(** [evs] is what processing records of the files [files] may add to the
    trace when the set of loaded files goes from [before] to [after]. *)
Record run_segment (force_update : bool) (files : list string)
    (before after : gset string) (evs : list event) : Prop := mkSegment {
  seg_marked : forall f, f ∈ after <-> f ∈ before \/ exists ev, ev ∈ evs /\ stores f ev;
  seg_files : forall ev f, ev ∈ evs -> repo_file ev = Some f -> f ∈ files;
  seg_no_update : force_update = false -> forall ev, ev ∈ evs -> is_update ev = false;
  seg_update_after_failure : forall f rec res,
    RepoUpdate f rec res ∈ evs ->
    force_update = true /\ exists err, RepoInsert f rec (Raise err) ∈ evs
}.

(** the file an event of load_records concerns: the file announced,
    read or parsed, or the file a repository call was made for *)
Definition file_of (ev : event) : option string :=
  match ev with
  | JsonLoad f _ | EtreeParse f _ | ParseRecord f _
  | RepoInsert f _ _ | RepoUpdate f _ _ => Some f
  | _ => started ev
  end.

(** the record handed to repo.insert *)
Definition inserted_record (ev : event) : option record :=
  match ev with RepoInsert _ rec _ => Some rec | _ => None end.

(** [block] is what one pass of the loop body (lines 356-399) does for
    [recfile], [res] telling whether the pass ended or raised: the line
    that announces the file, the reads of that file, then, when the reads
    gave a document, metadata.parse_record on it, and repo.insert for the
    records it returned, in their order: all of them when the pass ended,
    the first ones when it raised.  Nothing in the block concerns another
    file. *)
Record file_block {Repo} (env : LoadEnv Repo) (recfile : string)
    (block : list event) (res : outcome unit) : Prop := mkBlock {
  block_start : exists counter total rest,
    block = Log INFO "Processing file %s (%d of %d)"
                [AStr recfile; AInt counter; AInt total]
            :: read_events env recfile ++ rest /\
    processed_files rest = [] /\
    (forall d, read_document env recfile = ReadDoc d ->
       exists r, head rest = Some (ParseRecord recfile (parse_record env d r))) /\
    ((forall d, read_document env recfile <> ReadDoc d) ->
       forall ev, ev ∈ rest -> file_of ev = None);
  block_file : forall ev g, ev ∈ block -> file_of ev = Some g -> g = recfile;
  block_records : forall recs,
    ParseRecord recfile (Return recs) ∈ block ->
    omap inserted_record block `prefix_of` recs /\
    (res = Return tt -> omap inserted_record block = recs)
}.

(* --------------------------------------------------------------------- *)
(* A small catalogue to run the code on                                   *)
(* --------------------------------------------------------------------- *)

Module Sample.

Definition csw_record (id : string) (text : option string) : record :=
  mkRecord id "csw:Record" "http://www.opengis.net/cat/csw/2.0.2" "local" EmptyString
           EmptyString (XmlStr ("<Record>" +:+ id +:+ "</Record>")) text "application/xml".

Definition rec_a : record := csw_record "urn:a" (Some "a").
Definition rec_c : record := csw_record "urn:c" (Some "c").
Definition rec_d : record := csw_record "urn:d" (Some "d").
(** a record for which the parser found no text: [anytext] is NULL *)
Definition rec_bad : record := csw_record "urn:bad" None.

(** None of the files is JSON. *)
Definition json_load (recfile : string) : outcome document :=
  Raise (JSONDecodeError "Expecting value: line 1 column 1 (char 0)").

(** b.xml has an unclosed tag. *)
Definition etree_parse (recfile : string) : outcome document :=
  if String.eqb recfile "/data/b.xml"
  then Raise (XMLSyntaxError "Premature end of data in tag Record line 1")
  else Return (XmlDoc recfile).

(** two.xml holds two records, the second without text. *)
Definition parse_record (d : document) (r : MemRepo.t) : outcome (list record) :=
  match d with
  | XmlDoc f =>
      if String.eqb f "/data/a.xml" then Return [rec_a]
      else if String.eqb f "/data/c.xml" then Return [rec_c]
      else if String.eqb f "/data/two.xml" then Return [rec_d; rec_bad]
      else Raise (RuntimeError "Unsupported metadata format")
  | JsonDoc _ => Raise (RuntimeError "Unsupported metadata format")
  end.

(** the collaborators, over a repository that opens in state [r] *)
Definition env_on (r : MemRepo.t) : LoadEnv MemRepo.t :=
  mkLoadEnv (Return r) MemRepo.insert MemRepo.update json_load etree_parse
            parse_record "2024-01-01T00:00:00Z" "sqlite:////var/pycsw/cite.db"
            "records".

(** over the empty repository *)
Definition env : LoadEnv MemRepo.t := env_on MemRepo.empty.

(** /data as the operating system happens to list it *)
Definition data : node :=
  Dir [("c.xml", File); ("b.xml", File); ("notes.txt", File); ("a.xml", File)].

(** the same directory without the malformed file, in two enumeration orders *)
Definition good : node :=
  Dir [("two.xml", File); ("c.xml", File); ("a.xml", File);
       ("old", Dir [("z.xml", File); ("z.json", File)]); ("m.json", File)].
Definition good' : node :=
  Dir [("c.xml", File); ("two.xml", File); ("a.xml", File);
       ("old", Dir [("z.json", File); ("z.xml", File)]); ("m.json", File)].

(** a directory that holds a sub-directory whose name ends in .xml and
    a hidden file *)
Definition mixed : node :=
  Dir [("sub.xml", Dir [("deep.xml", File)]); (".a.xml", File); ("b.xml", File)].

(** a repository that already holds urn:a and whose connection drops
    for the next statement *)
Definition flaky : MemRepo.t :=
  MemRepo.mk {[ "urn:a" := MemRepo.stamp rec_a "local" "2023-06-30T12:00:00Z" ]} 1.

End Sample.

(* --------------------------------------------------------------------- *)
(* A small export to run the code on                                      *)
(* --------------------------------------------------------------------- *)

Module SampleExport.

(** Modelled from the spec: util.secure_filename is not part of admin.py.
    Section 4.5 has it "strip path separators and traversal sequences":
    the slashes and backslashes are dropped, then every pair of dots. *)
Fixpoint strip_separators (s : string) : string :=
  match s with
  | EmptyString => EmptyString
  | String c s' =>
      if Ascii.eqb c "/" || Ascii.eqb c "\" then strip_separators s'
      else String c (strip_separators s')
  end.

Fixpoint strip_traversal (s : string) : string :=
  match s with
  | EmptyString => EmptyString
  | String a EmptyString => s
  | String a (String b s' as t) =>
      if Ascii.eqb a "." && Ascii.eqb b "." then strip_traversal s'
      else String a (strip_traversal t)
  end.

Definition secure_filename (identifier : string) : string :=
  strip_traversal (strip_separators identifier).

(** bytes.decode('utf-8') on the ASCII documents of this sample *)
Definition ascii_of_byte (b : Byte.byte) : option ascii :=
  let a := Ascii.ascii_of_byte b in
  if (Ascii.N_of_ascii a <? 128)%N then Some a else None.

Fixpoint decode_ascii (bs : list Byte.byte) : option string :=
  match bs with
  | [] => Some EmptyString
  | b :: bs' =>
      match ascii_of_byte b, decode_ascii bs' with
      | Some a, Some s => Some (String a s)
      | _, _ => None
      end
  end.

(** the device is full when the second record is written *)
Definition io_fault (n : nat) : io_plan :=
  match n with
  | 1 => WriteFails 10 (OtherException "[Errno 28] No space left on device")
  | _ => IoOk
  end.

(** a table holding [records], on a file system where nothing is in the
    way and os.remove returns *)
Definition env_with (io : nat -> io_plan) (records : list record) : ExportEnv :=
  mkExportEnv (Return tt) (Return (length records)) (Return records)
              secure_filename decode_ascii (fun _ => false) io (fun _ => None).

Definition env (records : list record) : ExportEnv := env_with io_fault records.

(** every write succeeds *)
Definition env_ok (records : list record) : ExportEnv :=
  env_with (fun _ => IoOk) records.

(** the device is full when the second record is written, and the
    partial file cannot be removed *)
Definition env_locked (records : list record) : ExportEnv :=
  mkExportEnv (Return tt) (Return (length records)) (Return records)
              secure_filename decode_ascii (fun _ => false) io_fault
              (fun _ => Some (OSError "[Errno 13] Permission denied")).

Definition xml_record (id doc : string) : record :=
  mkRecord id "csw:Record" "http://www.opengis.net/cat/csw/2.0.2" "local" EmptyString
           "2024-01-01T00:00:00Z" (XmlStr doc) (Some id) "application/xml".

(** two identifiers that differ by a trailing slash *)
Definition rec_ab : record := xml_record "ab" "<Record>ab</Record>".
Definition rec_ab_slash : record := xml_record "ab/" "<Record>ab/</Record>".

(** a stored document that already starts with the declaration *)
Definition rec_declared : record :=
  xml_record "urn:x" (xml_declaration +:+ "<Record>urn:x</Record>").

Definition rec_json : record :=
  mkRecord "urn:j" "csw:Record" "http://www.opengis.net/cat/csw/2.0.2" "local" EmptyString
           "2024-01-01T00:00:00Z" (XmlStr "{}") (Some "j") "application/json".

End SampleExport.

(* --------------------------------------------------------------------- *)
(* A small catalogue to refresh                                           *)
(* --------------------------------------------------------------------- *)

Module SampleHarvest.

(** Modelled from the spec: repository.query is not part of admin.py.
    Section 4.4 has query(predicate, maxResults) -> (count, sequence of
    records), with a predicate selecting the records whose mdsource is
    not 'local'.  The count is written in decimal. *)
Definition query (rows : list record) (where_ : string)
  : outcome (string * list record) :=
  let found :=
    if String.eqb where_ "mdsource != 'local'"
    then filter (fun rec => mdsource rec <> "local") rows
    else rows in
  Return (NilEmpty.string_of_uint (Nat.to_uint (length found)), found).

(** int(count) on a str: the number that a string of decimal digits
    writes, ValueError on another string *)
Definition int (count : string) : outcome Z :=
  match NilEmpty.uint_of_string count with
  | Some (Decimal.Nil) | None =>
      Raise (OtherException "ValueError: invalid literal for int() with base 10")
  | Some n => Return (Z.of_nat (Nat.of_uint n))
  end.

Definition harvested (id sch src : string) : record :=
  mkRecord id "gmd:MD_Metadata" sch src src "2024-01-01T00:00:00Z"
           (XmlStr ("<MD_Metadata>" +:+ id +:+ "</MD_Metadata>")) (Some id)
           "application/xml".

Definition rec_iso : record :=
  harvested "urn:iso" "http://www.isotc211.org/2005/gmd"
            "https://example.org/csw/iso.xml".
Definition rec_dc : record :=
  harvested "urn:dc" "http://www.opengis.net/cat/csw/2.0.2"
            "https://example.org/csw/dc.xml".

(** the endpoint answers; the harvest of the second record times out *)
Definition csw_harvest (n : nat) (src sch : string) : outcome string :=
  match n with
  | 1 => Raise (OtherException "Read timed out")
  | _ => Return "<csw:HarvestResponse/>"
  end.

Definition env (rows : list record) : HarvestEnv :=
  mkHarvestEnv (Return tt) (query rows) int (fun _ => Return tt) csw_harvest.

End SampleHarvest.

(* --------------------------------------------------------------------- *)
(* More vocabulary for load_records                                       *)
(* --------------------------------------------------------------------- *)

(** [rec] is one of the records that metadata.parse_record extracts from
    the document that the try statement of lines 360-370 reads from
    [recfile] (for some state [r] of the repository). *)
Definition extracted {Repo} (env : LoadEnv Repo) (recfile : string)
    (rec : record) : Prop :=
  exists d r recs,
    read_document env recfile = ReadDoc d /\
    parse_record env d r = Return recs /\
    rec ∈ recs.

(** The repository calls of a trace are made for extracted records. *)
Definition calls_extracted {Repo} (env : LoadEnv Repo) (tr : list event) : Prop :=
  forall ev f rec res,
    ev ∈ tr -> ev = RepoInsert f rec res \/ ev = RepoUpdate f rec res ->
    extracted env f rec.

(* --------------------------------------------------------------------- *)
(* setup_db: the SQLite directory check and the table name                *)
(* --------------------------------------------------------------------- *)

(** [s.split(sep)] for a non-empty separator: the pieces between the
    non-overlapping occurrences of [sep], found from left to right.
    [skip] counts the characters of an occurrence still to be passed; the
    first piece of the result is the one under construction. *)
Fixpoint split_from (sep : string) (skip : nat) (s : string) : list string :=
  match s with
  | EmptyString => [EmptyString]
  | String c s' =>
      match skip with
      | S k => split_from sep k s'
      | O =>
          if PyStr.startswith sep s
          then EmptyString :: split_from sep (String.length sep - 1) s'
          else match split_from sep 0 s' with
               | piece :: pieces => String c piece :: pieces
               | [] => [String c EmptyString]
               end
      end
  end.

Definition py_split (sep s : string) : list string := split_from sep 0 s.

(** [p[:p.rfind('/') + 1]]: the characters of [p] up to its last slash *)
Fixpoint upto_last_slash (p : string) : string :=
  match p with
  | EmptyString => EmptyString
  | String c p' =>
      if PyStr.contains "/" p then String c (upto_last_slash p') else EmptyString
  end.

(** posixpath.dirname *)
Definition os_path_dirname (p : string) : string :=
  let head := upto_last_slash p in
  if negb (String.eqb head EmptyString) && negb (PyStr.all_char "/" head)
  then PyStr.rstrip "/" head
  else head.

(** Lines 59-63 of setup_db, [path_exists] being os.path.exists: the
    check made before the engine is created.  Unpacking a split with
    more than two pieces raises ValueError. *)
Definition sqlite_directory_check (path_exists : string -> bool)
    (database : string) : outcome unit :=
  if PyStr.startswith "sqlite:///" database then
    match py_split "sqlite:///" database with
    | [_; filepath] =>
        let dirname := os_path_dirname filepath in
        if path_exists dirname then Return tt
        else Raise (RuntimeError ("SQLite directory " +:+ dirname +:+ " does not exist"))
    | _ => Raise (OtherException "ValueError: too many values to unpack (expected 2)")
    end
  else Return tt.

(** [s.rpartition(sep)] for a separator of one character: the text before
    the last [sep] and the text after it; [None] when [s] has no [sep]. *)
Fixpoint rsplit_once (sep : ascii) (s : string) : option (string * string) :=
  match s with
  | EmptyString => None
  | String c s' =>
      match rsplit_once sep s' with
      | Some (head, tail) => Some (String c head, tail)
      | None => if Ascii.eqb c sep then Some (EmptyString, s') else None
      end
  end.

Definition rpartition (sep : ascii) (s : string) : string * string * string :=
  match rsplit_once sep s with
  | Some (head, tail) => (head, String sep EmptyString, tail)
  | None => (EmptyString, EmptyString, s)
  end.

(** Line 67: [schema_name, table_name = table.rpartition(".")[::2]] *)
Definition schema_and_table (table : string) : string * string :=
  let '(head, _, tail) := rpartition "." table in (head, tail).

(* --------------------------------------------------------------------- *)
(* rebuild_db_indexes and optimize_db                                     *)
(* --------------------------------------------------------------------- *)

(** What the two maintenance commands do to the connection, in order. *)
Inductive db_event : Type :=
| DbLog (fmt : string) (args : list logarg)
| DbOptions (name value : string) (res : outcome unit)
| DbAutocommit
| DbExecute (statement : string) (res : outcome unit)
| DbClose (res : outcome unit).

(** The collaborators: [db_connect database table] stands for
    repository.Repository(database, context, table=table) followed by
    repos.engine.connect(); the connection has a state of type [Conn];
    [is_sqlite_signal] tells whether an exception is an instance of
    sqlalchemy's ArgumentError or OperationalError. *)
Record DbEnv (Conn : Type) : Type := mkDbEnv {
  db_connect : string -> string -> outcome Conn;
  db_execution_options : Conn -> string -> string -> Conn * outcome unit;
  db_set_autocommit : Conn -> Conn;
  db_execute : Conn -> string -> Conn * outcome unit;
  db_close : Conn -> Conn * outcome unit;
  is_sqlite_signal : exn -> bool
}.
Arguments mkDbEnv {Conn} _ _ _ _ _ _.
Arguments db_connect {Conn} _ _ _.
Arguments db_execution_options {Conn} _ _ _ _.
Arguments db_set_autocommit {Conn} _ _.
Arguments db_execute {Conn} _ _ _.
Arguments db_close {Conn} _ _.
Arguments is_sqlite_signal {Conn} _ _.

Section DbMaintenance.

Context {Conn : Type} (env : DbEnv Conn).

(** A step on the connection and the trace, with its result. *)
Definition step (A : Type) : Type :=
  Conn * list db_event -> (Conn * list db_event) * outcome A.

Definition ret {A} (a : A) : step A := fun s => (s, Return a).

(** sequencing: an exception ends the sequence *)
Definition bind {A B} (m : step A) (k : A -> step B) : step B :=
  fun s => match m s with
           | (s', Return a) => k a s'
           | (s', Raise e) => (s', Raise e)
           end.

(** [try: body / except classes: handler]: the handler runs when the body
    raises an exception that [catches] accepts. *)
Definition try_except {A} (body : step A) (catches : exn -> bool)
    (handler : step A) : step A :=
  fun s => match body s with
           | (s', Return a) => (s', Return a)
           | (s', Raise e) => if catches e then handler s' else (s', Raise e)
           end.

(** [try: body / finally: final]: [final] runs in every case; when it
    raises, its exception replaces the result of the body. *)
Definition try_finally {A} (body : step A) (final : step unit) : step A :=
  fun s => match body s with
           | (s', res) =>
               match final s' with
               | (s'', Return _) => (s'', res)
               | (s'', Raise e) => (s'', Raise e)
               end
           end.

Definition log_info (fmt : string) (args : list logarg) : step unit :=
  fun '(c, tr) => ((c, tr ++ [DbLog fmt args]), Return tt).

Definition execution_options (name value : string) : step unit :=
  fun '(c, tr) =>
    let '(c', res) := db_execution_options env c name value in
    ((c', tr ++ [DbOptions name value res]), res).

Definition set_autocommit : step unit :=
  fun '(c, tr) => ((db_set_autocommit env c, tr ++ [DbAutocommit]), Return tt).

Definition execute (statement : string) : step unit :=
  fun '(c, tr) =>
    let '(c', res) := db_execute env c statement in
    ((c', tr ++ [DbExecute statement res]), res).

Definition close : step unit :=
  fun '(c, tr) =>
    let '(c', res) := db_close env c in
    ((c', tr ++ [DbClose res]), res).

(** rebuild_db_indexes(context, database, table) *)
Definition rebuild_db_indexes (database table : string)
  : list db_event * outcome unit :=
  let tr := [DbLog "Rebuilding database %s, table %s" [AStr database; AStr table]] in
  match db_connect env database table with
  | Raise e => (tr, Raise e)
  | Return connection =>
      let '((_, tr'), res) :=
        bind set_autocommit (fun _ =>
        bind (execute ("REINDEX " +:+ table)) (fun _ =>
        bind close (fun _ =>
        log_info "Done" []))) (connection, tr) in
      (tr', res)
  end.

(** optimize_db(context, database, table) *)
Definition optimize_db (database table : string)
  : list db_event * outcome unit :=
  let tr := [DbLog "Optimizing database %s" [AStr database]] in
  match db_connect env database table with
  | Raise e => (tr, Raise e)
  | Return connection =>
      let '((_, tr'), res) :=
        try_finally
          (try_except
             (bind (execution_options "isolation_level" "AUTOCOMMIT") (fun _ =>
              execute "VACUUM ANALYZE"))
             (is_sqlite_signal env)
             (bind set_autocommit (fun _ =>
              bind (execute "VACUUM") (fun _ =>
              execute "ANALYZE"))))
          (bind close (fun _ => log_info "Done" []))
          (connection, tr) in
      (tr', res)
  end.

End DbMaintenance.

Definition is_close (ev : db_event) : bool :=
  match ev with DbClose _ => true | _ => false end.

(** the statements sent to the database, in order *)
Definition statement_of (ev : db_event) : option string :=
  match ev with DbExecute statement _ => Some statement | _ => None end.
Definition statements (tr : list db_event) : list string := omap statement_of tr.

(** A SQLite connection to run the commands on: it has no isolation
    level option (ArgumentError) and executes the statements it is given,
    except the ones in [broken], on which the database is locked
    (OperationalError).  The state counts the statements executed. *)
Module SampleDb.

Definition argument_error : exn := OtherException "ArgumentError: Invalid value".
Definition operational_error : exn := DBAPIError StorageFailure ["database is locked"].

Definition env (broken : list string) : DbEnv nat :=
  mkDbEnv (fun _ _ => Return 0)
          (fun c _ _ => (c, Raise argument_error))
          (fun c => c)
          (fun c statement =>
             if bool_decide (statement ∈ broken)
             then (c, Raise operational_error)
             else (S c, Return tt))
          (fun c => (c, Return tt))
          (fun e => match e with
                    | OtherException _ | DBAPIError StorageFailure _ => true
                    | _ => false
                    end).

End SampleDb.

(* --------------------------------------------------------------------- *)
(* validate_xml                                                           *)
(* --------------------------------------------------------------------- *)

(** The collaborators of validate_xml: etree.XMLSchema(file=xsd), whose
    result is modelled by what the schema would answer for a document;
    etree.parse(xml, PARSER), where PARSER is the parser of the module
    pycsw.core.etree, built when the module is loaded; and str(err). *)
Record ValidateEnv : Type := mkValidateEnv {
  xmlschema : string -> outcome (document -> bool);
  parse_with_parser : string -> outcome document;
  exn_str : exn -> string
}.

(** validate_xml(xml, xsd) *)
Definition validate_xml (env : ValidateEnv) (xml_ xsd : string)
  : list event * outcome string :=
  let tr := [Log INFO "Validating %s against schema %s" [AStr xml_; AStr xsd]] in
  match xmlschema env xsd with
  | Raise e => (tr, Raise e)
  | Return schema_ =>
      match parse_with_parser env xml_ with
      | Return valid => (tr, Return "Valid")
      | Raise err =>
          (tr ++ [Log EXCEPTION "Invalid XML" []],
           Raise (RuntimeError ("ERROR: " +:+ exn_str env err)))
      end
  end.

(** A schema that accepts no document, and a parser that reads any file
    but broken.xml. *)
Definition strict_env : ValidateEnv :=
  mkValidateEnv
    (fun xsd => Return (fun _ => false))
    (fun f => if String.eqb f "broken.xml"
              then Raise (XMLSyntaxError "Premature end of data")
              else Return (XmlDoc f))
    (fun e => match e with
              | JSONDecodeError m | XMLSyntaxError m | RuntimeError m
              | OtherException m | OSError m => m
              | DBAPIError _ args => String.concat ", " args
              end).

(* --------------------------------------------------------------------- *)
(* gen_sitemap                                                            *)
(* --------------------------------------------------------------------- *)

(** An lxml element: tag, attributes, text, children in document order. *)
Inductive element : Type :=
| Element (tag : string) (attrib : list (string * string)) (text : option string)
          (children : list element).

Definition children_of (e : element) : list element :=
  match e with Element _ _ _ children => children end.
Definition text_of (e : element) : option string :=
  match e with Element _ _ text _ => text end.
Definition tag_of (e : element) : string :=
  match e with Element tag _ _ _ => tag end.

(** [etree.SubElement(parent, ...)]: the new element becomes the last
    child of [parent]. *)
Definition sub_element (parent child : element) : element :=
  match parent with
  | Element tag attrib text children => Element tag attrib text (children ++ [child])
  end.

(** The collaborators of gen_sitemap: util.nspath_eval with
    context.namespaces, the namespace context.namespaces['sitemap'],
    repos.query(constraint={}, maxrecords=99999999), etree.tostring and
    the write of the output file. *)
Record SitemapEnv : Type := mkSitemapEnv {
  nspath_eval : string -> string;
  sitemap_namespace : string;
  query_all : Z * list record;
  tostring : element -> string;
  write_file : string -> string -> outcome unit
}.

Section GenSitemap.

Context (env : SitemapEnv).

(** Lines 569-572: the retrieval URL of a record. *)
Definition sitemap_uri (url : string) (rec : record) : string :=
  url +:+ "?service=CSW&version=2.0.2&request=GetRepositoryItem&id=" +:+ identifier rec.

(** Body of [for rec in records] (lines 566-575): a url element with one
    loc child is added to the urlset. *)
Definition add_url (url : string) (urlset : element) (rec : record) : element :=
  let url_ := Element (nspath_eval env "sitemap:url") [] None [] in
  let loc := Element (nspath_eval env "sitemap:loc") [] (Some (sitemap_uri url rec)) [] in
  sub_element urlset (sub_element url_ loc).

(** Lines 550-558: the empty urlset with its schema location. *)
Definition empty_urlset : element :=
  Element (nspath_eval env "sitemap:urlset")
          [(nspath_eval env "xsi:schemaLocation",
            sitemap_namespace env +:+
            " http://www.sitemaps.org/schemas/sitemap/0.9/sitemap.xsd")]
          None [].

(** the tree that gen_sitemap serializes *)
Definition sitemap_tree (url : string) : element :=
  fold_left (add_url url) (snd (query_all env)) empty_urlset.

(** gen_sitemap(context, database, table, url, output_file) *)
Definition gen_sitemap (url output_file : string) : list event * outcome unit :=
  let urlset := sitemap_tree url in
  ([Log INFO "Found %s records" [AZ (fst (query_all env))];
    Log INFO "Writing to %s" [AStr output_file]],
   write_file env output_file (tostring env urlset)).

(** the url element made for one record *)
Definition url_element (url : string) (rec : record) : element :=
  Element (nspath_eval env "sitemap:url") [] None
          [Element (nspath_eval env "sitemap:loc") [] (Some (sitemap_uri url rec)) []].

End GenSitemap.

(** The locations a sitemap lists: the text of every child of every
    child of the root, in document order. *)
Definition sitemap_locs (urlset : element) : list string :=
  children_of urlset ≫= fun url_ => omap text_of (children_of url_).

(** a plain serializer, without declaration or indentation *)
Fixpoint render (e : element) : string :=
  match e with
  | Element tag attrib text children =>
      "<" +:+ tag +:+
      String.concat EmptyString
        ((fun '(name, value) => " " +:+ name +:+ "='" +:+ value +:+ "'") <$> attrib) +:+
      ">" +:+ default EmptyString text +:+
      (fix render_all (es : list element) : string :=
         match es with
         | [] => EmptyString
         | e' :: es' => render e' +:+ render_all es'
         end) children +:+
      "</" +:+ tag +:+ ">"
  end.

(** A sitemap environment over the rows of a table. *)
Definition sample_sitemap_env (rows : list record) : SitemapEnv :=
  mkSitemapEnv (fun name => name) "http://www.sitemaps.org/schemas/sitemap/0.9"
               (Z.of_nat (length rows), rows)
               render
               (fun _ _ => Return tt).

(* --------------------------------------------------------------------- *)
(* Order facts                                                            *)
(* --------------------------------------------------------------------- *)

Lemma ascii_compare_refl a : Ascii.compare a a = Eq.
Proof. unfold Ascii.compare. apply N.compare_refl. Qed.

Lemma ascii_compare_eq a b : Ascii.compare a b = Eq -> a = b.
Proof.
  unfold Ascii.compare. intros H%N.compare_eq_iff.
  rewrite <- (ascii_N_embedding a), <- (ascii_N_embedding b). by rewrite H.
Qed.

Lemma ascii_compare_lt_trans a b c :
  Ascii.compare a b = Lt -> Ascii.compare b c = Lt -> Ascii.compare a c = Lt.
Proof. unfold Ascii.compare. rewrite !N.compare_lt_iff. lia. Qed.

Lemma string_compare_refl s : String.compare s s = Eq.
Proof. induction s as [|a s IH]; simpl; [done|]. by rewrite ascii_compare_refl. Qed.

Lemma string_compare_lt_trans s t u :
  String.compare s t = Lt -> String.compare t u = Lt -> String.compare s u = Lt.
Proof.
  revert t u. induction s as [|a s IH]; intros [|b t] [|c u]; simpl; try done.
  destruct (Ascii.compare a b) eqn:Hab; try done;
    destruct (Ascii.compare b c) eqn:Hbc; try done; intros H1 H2.
  - apply ascii_compare_eq in Hab, Hbc. subst. rewrite ascii_compare_refl. eauto.
  - apply ascii_compare_eq in Hab. subst. by rewrite Hbc.
  - apply ascii_compare_eq in Hbc. subst. by rewrite Hab.
  - by rewrite (ascii_compare_lt_trans _ _ _ Hab Hbc).
Qed.

Lemma pystr_le_alt s t : PyStr.le s t <-> String.compare s t <> Gt.
Proof.
  unfold PyStr.le, String.leb. destruct (String.compare s t); split; congruence.
Qed.

#[global] Instance pystr_le_refl : Reflexive PyStr.le.
Proof. intros s. apply pystr_le_alt. by rewrite string_compare_refl. Qed.

#[global] Instance pystr_le_total : Total PyStr.le.
Proof. intros s t. apply String.leb_total. Qed.

#[global] Instance pystr_le_antisym : AntiSymm (=) PyStr.le.
Proof. intros s t H1 H2. by apply String.leb_antisym. Qed.

#[global] Instance pystr_le_trans : Transitive PyStr.le.
Proof.
  intros s t u Hst Htu. apply pystr_le_alt. apply pystr_le_alt in Hst, Htu.
  destruct (String.compare s t) eqn:E1; [| |done].
  - apply String.compare_eq_iff in E1. by subst.
  - destruct (String.compare t u) eqn:E2; [| |done].
    + apply String.compare_eq_iff in E2. subst. by rewrite E1.
    + by rewrite (string_compare_lt_trans _ _ _ E1 E2).
Qed.

Lemma sorted_Sorted l : StronglySorted PyStr.le (sorted l).
Proof. apply StronglySorted_merge_sort; apply _. Qed.

Lemma sorted_Permutation l : sorted l ≡ₚ l.
Proof. apply merge_sort_Permutation. Qed.

Lemma sorted_perm_invariant l1 l2 : l1 ≡ₚ l2 -> sorted l1 = sorted l2.
Proof.
  intros Hp. apply (StronglySorted_unique PyStr.le); try apply sorted_Sorted.
  by rewrite !sorted_Permutation.
Qed.

Lemma sorted_elem_of x l : x ∈ sorted l <-> x ∈ l.
Proof. by rewrite sorted_Permutation. Qed.

(* --------------------------------------------------------------------- *)
(* String facts                                                           *)
(* --------------------------------------------------------------------- *)

Lemma append_nil_l s : EmptyString +:+ s = s.
Proof. reflexivity. Qed.

Lemma append_cons a s t : String a s +:+ t = String a (s +:+ t).
Proof. reflexivity. Qed.

Lemma endswith_spec suffix s :
  PyStr.endswith suffix s = true <-> exists pre, s = pre +:+ suffix.
Proof.
  induction s as [|a s IH]; cbn [PyStr.endswith].
  - destruct (String.eqb_spec EmptyString suffix) as [<-|Hne].
    + split; [by exists EmptyString | done].
    + split; [done|]. intros [[|b pre] Hpre].
      * by rewrite append_nil_l in Hpre.
      * by rewrite append_cons in Hpre.
  - destruct (String.eqb_spec (String a s) suffix) as [<-|Hne].
    + split; [by exists EmptyString | done].
    + rewrite IH. split.
      * intros [pre ->]. by exists (String a pre).
      * intros [[|b pre] Hpre].
        -- by rewrite append_nil_l in Hpre.
        -- rewrite append_cons in Hpre. injection Hpre as -> ->. by exists pre.
Qed.

Lemma endswith_xml_not_json name :
  PyStr.endswith ".xml" name = true -> PyStr.endswith ".json" name = false.
Proof.
  induction name as [|a s IH]; [done|]. cbn [PyStr.endswith].
  destruct (String.eqb_spec (String a s) ".xml") as [E|Hne].
  { injection E as -> ->. reflexivity. }
  intros Hs. specialize (IH Hs).
  destruct (String.eqb_spec (String a s) ".json") as [E|_]; [|done].
  injection E as -> ->. done.
Qed.

Lemma fnmatch_literal lit name :
  literal lit = true -> fnmatch lit name = String.eqb name lit.
Proof.
  revert name. induction lit as [|c lit IH]; intros name Hlit.
  - by destruct name.
  - simpl in Hlit. apply andb_true_iff in Hlit as [Hc Hlit].
    apply andb_true_iff in Hc as [Hstar Hq].
    apply negb_true_iff in Hstar, Hq. cbn [fnmatch]. rewrite Hstar, Hq.
    destruct name as [|d name]; [done|]. rewrite IH by done. simpl.
    by rewrite (Ascii.eqb_sym c d).
Qed.

(** The pattern [*lit] matches exactly the names that end in [lit]. *)
Lemma fnmatch_star lit name :
  literal lit = true -> fnmatch (String "*" lit) name = PyStr.endswith lit name.
Proof.
  intros Hlit. cbn [fnmatch]. rewrite Ascii.eqb_refl.
  induction name as [|a name IH].
  - rewrite fnmatch_literal by done. cbn [PyStr.endswith].
    by destruct (String.eqb EmptyString lit).
  - rewrite fnmatch_literal by done. cbn [PyStr.endswith].
    destruct (String.eqb (String a name) lit); [done|]. simpl. apply IH.
Qed.

(* --------------------------------------------------------------------- *)
(* The scanner                                                            *)
(* --------------------------------------------------------------------- *)

(** Induction on trees, with the hypothesis for every entry of a listing. *)
Lemma node_ind_entries (P : node -> Prop) :
  P File ->
  (forall es, Forall (fun e => P e.2) es -> P (Dir es)) ->
  forall n, P n.
Proof.
  intros HF HD. fix IH 1. intros [|es]; [exact HF|].
  apply HD. induction es as [|[name c] es IHes]; constructor; [apply IH | apply IHes].
Qed.

Lemma os_walk_dir top es :
  os_walk top (Dir es) =
  (top, (dirnames es, filenames es)) ::
  (es ≫= fun e => os_walk (os_path_join top e.1) e.2).
Proof.
  cbn [os_walk]. f_equal.
  induction es as [|[name child] es IH]; [done|].
  rewrite bind_cons. cbn [fst snd]. by rewrite IH.
Qed.

Lemma walk_xml_dir top es :
  walk_xml top (Dir es) =
  xml_files_of top (filenames es) ++
  (es ≫= fun e => walk_xml (os_path_join top e.1) e.2).
Proof.
  unfold walk_xml at 1. rewrite os_walk_dir, bind_cons. f_equal.
  induction es as [|e es IH]; [done|].
  by rewrite !bind_cons, bind_app, IH.
Qed.

Lemma elem_of_filenames name es : name ∈ filenames es <-> (name, File) ∈ es.
Proof.
  unfold filenames. rewrite list_elem_of_fmap. split.
  - intros [[n c] [-> [Hd Hin]%list_elem_of_filter]].
    destruct c; [done|discriminate].
  - intros Hin. exists (name, File). split; [done|].
    by apply list_elem_of_filter.
Qed.

Lemma walk_xml_sound n : forall top p,
  p ∈ walk_xml top n ->
  exists root name, tree_file top n root name /\
                    PyStr.endswith ".xml" name = true /\ p = os_path_join root name.
Proof.
  induction n as [|es IH] using node_ind_entries; intros top p Hp; [by inversion Hp|].
  rewrite walk_xml_dir, elem_of_app in Hp. destruct Hp as [Hp|Hp].
  - apply list_elem_of_fmap in Hp as [name [-> [Hx Hin]%list_elem_of_filter]].
    exists top, name. split_and!; [|done..].
    apply tree_file_here. by apply elem_of_filenames.
  - apply list_elem_of_bind in Hp as [[d child] [Hp Hin]].
    rewrite Forall_forall in IH.
    destruct (IH _ Hin _ _ Hp) as (root & name & Ht & Hx & ->).
    exists root, name. split_and!; [|done..]. by eapply tree_file_below.
Qed.

Lemma walk_xml_complete top n root name :
  tree_file top n root name ->
  PyStr.endswith ".xml" name = true ->
  os_path_join root name ∈ walk_xml top n.
Proof.
  induction 1 as [top es name Hin | top es d child root name Hin Ht IH]; intros Hx;
    rewrite walk_xml_dir, elem_of_app.
  - left. apply list_elem_of_fmap. exists name. split; [done|].
    apply list_elem_of_filter. split; [done|]. by apply elem_of_filenames.
  - right. apply list_elem_of_bind. exists (d, child). split; [|done]. by apply IH.
Qed.

Lemma scan_files_recursive xml_dirpath fs n :
  target_of xml_dirpath fs = Some n -> is_dir n = true ->
  scan_files xml_dirpath fs true = walk_xml xml_dirpath n.
Proof. unfold scan_files. intros -> Hd. by destruct n. Qed.

Lemma elem_of_glob1_star n suffix name :
  literal suffix = true ->
  name ∈ glob1 n (String "*" suffix) <->
  exists es child, n = Some (Dir es) /\ (name, child) ∈ es /\ glob_keeps suffix name.
Proof.
  intros Hlit. unfold glob1, glob_keeps. destruct n as [[|es]|].
  - split; [by intros Hin; inversion Hin|by intros (? & ? & ? & _)].
  - rewrite list_elem_of_filter, list_elem_of_fmap, fnmatch_star by done.
    change (ishidden (String "*" suffix)) with false. split.
    + intros [[Hh%negb_true_iff Hs]%andb_true_iff [[n c] [-> Hin]]].
      by exists es, c.
    + intros (es' & child & [= <-] & Hin & Hh & Hs). rewrite Hh, Hs.
      split; [done|]. by exists (name, child).
  - split; [by intros Hin; inversion Hin|by intros (? & ? & ? & _)].
Qed.

Lemma glob_star d fs suffix p :
  literal suffix = true ->
  p ∈ glob d fs (String "*" suffix) <->
  exists dirname es name child,
    (dirname, Some (Dir es)) ∈ glob_listings d fs /\
    (name, child) ∈ es /\ glob_keeps suffix name /\
    p = os_path_join dirname name.
Proof.
  intros Hlit. unfold glob. rewrite list_elem_of_bind. split.
  - intros ([dirname n] & Hp & Hin).
    apply list_elem_of_fmap in Hp as (name & -> & Hname).
    apply elem_of_glob1_star in Hname as (es & child & -> & Hes & Hk); [|done].
    by exists dirname, es, name, child.
  - intros (dirname & es & name & child & Hin & Hes & Hk & ->).
    exists (dirname, Some (Dir es)). split; [|done].
    apply list_elem_of_fmap. exists name. split; [done|].
    apply elem_of_glob1_star; [done|]. by exists es, child.
Qed.

Lemma rstrip_nonempty c s :
  PyStr.all_char c s = false -> PyStr.rstrip c s <> EmptyString.
Proof.
  induction s as [|a s IH]; [done|]. cbn [PyStr.all_char PyStr.rstrip].
  destruct (PyStr.rstrip c s) eqn:Hr; [|done].
  destruct (Ascii.eqb a c); [|done]. cbn. intros Hs. by destruct (IH Hs).
Qed.

Lemma glob_dirname_nonempty d : d <> EmptyString -> glob_dirname d <> EmptyString.
Proof.
  intros Hd. unfold glob_dirname.
  destruct (String.eqb_spec d EmptyString) as [|_]; [done|].
  set (head := if PyStr.endswith "/" d then d else d +:+ "/").
  assert (head <> EmptyString) as Hhead.
  { unfold head. destruct (PyStr.endswith "/" d); [done|].
    destruct d; [done|]. by rewrite append_cons. }
  destruct (PyStr.all_char "/" head) eqn:Hall; [done|]. by apply rstrip_nonempty.
Qed.

(** For a path without metacharacters, glob lists the one directory that
    the path designates. *)
Lemma glob_listings_plain d fs :
  d <> EmptyString -> has_magic (glob_dirname d) = false ->
  glob_listings d fs = [(glob_dirname d, designated fs)].
Proof.
  intros Hd Hmagic. unfold glob_listings, target_of. rewrite Hmagic.
  destruct (String.eqb_spec (glob_dirname d) EmptyString) as [E|_].
  - by destruct (glob_dirname_nonempty d Hd).
  - by destruct (String.eqb_spec d EmptyString).
Qed.

Lemma reorder_is_dir n n' : reorder n n' -> is_dir n = is_dir n'.
Proof. by destruct 1. Qed.

Lemma reorder_scan :
  (forall n n', reorder n n' -> forall top, walk_xml top n ≡ₚ walk_xml top n') /\
  (forall es es', reorder_entries es es' ->
     (fst <$> es) ≡ₚ (fst <$> es') /\
     filenames es ≡ₚ filenames es' /\
     forall top, (es ≫= fun e => walk_xml (os_path_join top e.1) e.2) ≡ₚ
                 (es' ≫= fun e => walk_xml (os_path_join top e.1) e.2)).
Proof.
  apply reorder_mutind.
  - done.
  - intros es es' _ (_ & Hf & Hsub) top.
    rewrite !walk_xml_dir. unfold xml_files_of. by rewrite Hf, Hsub.
  - done.
  - intros name c c' es es' Hc IHc _ (Hn & Hf & Hsub). split_and!.
    + rewrite !fmap_cons. by rewrite Hn.
    + unfold filenames in *. rewrite !filter_cons. cbn [snd].
      rewrite <- (reorder_is_dir _ _ Hc).
      destruct (decide (is_dir c = false)); [rewrite !fmap_cons|]; by rewrite Hf.
    + intros top. rewrite !bind_cons. cbn [fst snd]. by rewrite IHc, Hsub.
  - intros e1 e2 es.
    assert (e1 :: e2 :: es ≡ₚ e2 :: e1 :: es) as Hp by apply Permutation_swap.
    split_and!.
    + by rewrite Hp.
    + unfold filenames. by rewrite Hp.
    + intros top. by rewrite Hp.
  - intros es1 es2 es3 _ (Hn1 & Hf1 & Hs1) _ (Hn2 & Hf2 & Hs2).
    split_and!; [by etrans | by etrans | intros top; etrans; [apply Hs1 | apply Hs2]].
Qed.

Lemma reorder_glob1 n n' pattern :
  reorder_target n n' -> glob1 n pattern ≡ₚ glob1 n' pattern.
Proof.
  intros [|? ? [|es es' Hes]]; [done..|]. unfold glob1.
  destruct (proj2 reorder_scan _ _ Hes) as (Hn & _). by rewrite Hn.
Qed.

Lemma bind_Forall2_Permutation {A B} (R : relation A) (f : A -> list B) l1 l2 :
  (forall a b, R a b -> f a ≡ₚ f b) ->
  Forall2 R l1 l2 -> l1 ≫= f ≡ₚ l2 ≫= f.
Proof.
  intros Hf. induction 1 as [|a b l1 l2 Hab _ IH]; [done|].
  rewrite !bind_cons. by rewrite (Hf _ _ Hab), IH.
Qed.

Lemma reorder_glob xml_dirpath fs fs' pattern :
  reorder_view fs fs' ->
  glob xml_dirpath fs pattern ≡ₚ glob xml_dirpath fs' pattern.
Proof.
  intros [Hd Hw Hg]. unfold glob, glob_listings, target_of.
  assert (forall a b : string * option node,
            a.1 = b.1 /\ reorder_target a.2 b.2 ->
            (let '(dirname, n) := a in os_path_join dirname <$> glob1 n pattern) ≡ₚ
            (let '(dirname, n) := b in os_path_join dirname <$> glob1 n pattern))
    as Hone.
  { intros [d1 n1] [d2 n2] [Hdir Hn]. cbn in Hdir, Hn. subst d2.
    apply fmap_Permutation, reorder_glob1, Hn. }
  destruct (String.eqb (glob_dirname xml_dirpath) EmptyString).
  - rewrite !bind_cons. f_equiv. by apply (Hone (_, _) (_, _)).
  - destruct (has_magic (glob_dirname xml_dirpath)).
    + destruct (Hg (glob_dirname xml_dirpath)) as (dirs & Hdirs & Hperm).
      rewrite <- Hperm. by apply (bind_Forall2_Permutation _ _ _ _ Hone).
    + rewrite !bind_cons. f_equiv. apply (Hone (_, _) (_, _)). split; [done|].
      cbn. by destruct (String.eqb xml_dirpath EmptyString); [constructor|].
Qed.

Lemma reorder_scan_files xml_dirpath fs fs' recursive :
  reorder_view fs fs' ->
  scan_files xml_dirpath fs recursive ≡ₚ scan_files xml_dirpath fs' recursive.
Proof.
  intros Hv. unfold scan_files.
  assert (reorder_target (target_of xml_dirpath fs) (target_of xml_dirpath fs'))
    as Ht.
  { unfold target_of. destruct (String.eqb xml_dirpath EmptyString);
      [constructor|apply Hv]. }
  destruct Ht as [|n n' Hn].
  - cbn [os_path_isfile]. destruct recursive; [done|].
    by rewrite !(reorder_glob _ _ _ _ Hv).
  - destruct Hn as [|es es' Hes]; [done|]. cbn [os_path_isfile].
    destruct recursive.
    + by apply (proj1 reorder_scan), reorder_dir.
    + by rewrite !(reorder_glob _ _ _ _ Hv).
Qed.

(* --------------------------------------------------------------------- *)
(* Segments of a run                                                      *)
(* --------------------------------------------------------------------- *)

Lemma run_segment_nil fu files loaded : run_segment fu files loaded loaded [].
Proof.
  split.
  - intros f. split; [by left|]. intros [?|(ev & Hin & _)]; [done|by inversion Hin].
  - intros ev f Hin. by inversion Hin.
  - intros _ ev Hin. by inversion Hin.
  - intros f rec res Hin. by inversion Hin.
Qed.

Lemma run_segment_app fu files l0 l1 l2 evs1 evs2 :
  run_segment fu files l0 l1 evs1 -> run_segment fu files l1 l2 evs2 ->
  run_segment fu files l0 l2 (evs1 ++ evs2).
Proof.
  intros [M1 F1 U1 A1] [M2 F2 U2 A2]. split.
  - intros f. rewrite M2, M1. split.
    + intros [[?|(ev & ? & ?)]|(ev & ? & ?)]; [by left|right; exists ev..];
        rewrite elem_of_app; eauto.
    + intros [?|(ev & [?|?]%elem_of_app & ?)]; eauto 6.
  - intros ev f [?|?]%elem_of_app; eauto.
  - intros Hfu ev [?|?]%elem_of_app; eauto.
  - intros f rec res [Hin|Hin]%elem_of_app.
    + destruct (A1 _ _ _ Hin) as (? & err & ?). split; [done|].
      exists err. apply elem_of_app. by left.
    + destruct (A2 _ _ _ Hin) as (? & err & ?). split; [done|].
      exists err. apply elem_of_app. by right.
Qed.

Lemma run_segment_files fu files files' l0 l1 evs :
  (forall f, f ∈ files -> f ∈ files') ->
  run_segment fu files l0 l1 evs -> run_segment fu files' l0 l1 evs.
Proof. intros Hsub [M F U A]. split; eauto. Qed.

(** a segment without repository calls *)
Lemma run_segment_logs fu files loaded evs :
  Forall (fun ev => repo_file ev = None) evs ->
  run_segment fu files loaded loaded evs.
Proof.
  rewrite Forall_forall. intros Hq. split.
  - intros f. split; [by left|].
    intros [?|(ev & Hin & rec & [->| ->])]; [done|..]; by specialize (Hq _ Hin).
  - intros ev f Hin Hf. by rewrite (Hq _ Hin) in Hf.
  - intros _ ev Hin. specialize (Hq _ Hin). by destruct ev.
  - intros f rec res Hin. by specialize (Hq _ Hin).
Qed.

(** a record inserted for file [f] *)
Lemma segment_inserted fu f rec (l : gset string) :
  run_segment fu [f] l ({[f]} ∪ l) [RepoInsert f rec (Return tt)].
Proof.
  split.
  - intros g. rewrite elem_of_union, elem_of_singleton. split.
    + intros [->|?]; [right|by left].
      eexists. split; [by apply list_elem_of_singleton|]. exists rec. by left.
    + intros [?|(ev & ->%list_elem_of_singleton & rec' & [E|E])];
        [by right|injection E as <- _; by left|discriminate].
  - intros ev g ->%list_elem_of_singleton [= <-]. by apply list_elem_of_singleton.
  - by intros _ ev ->%list_elem_of_singleton.
  - intros g rec' res ?%list_elem_of_singleton. discriminate.
Qed.

(** an insert that raised *)
Lemma segment_insert_failed fu f rec (l : gset string) err :
  run_segment fu [f] l l [RepoInsert f rec (Raise err)].
Proof.
  split.
  - intros g. split; [by left|].
    intros [?|(ev & ->%list_elem_of_singleton & rec' & [E|E])]; [done|discriminate..].
  - intros ev g ->%list_elem_of_singleton [= <-]. by apply list_elem_of_singleton.
  - by intros _ ev ->%list_elem_of_singleton.
  - intros g rec' res ?%list_elem_of_singleton. discriminate.
Qed.

(** an insert that raised, followed by the update of lines 389-390 *)
Lemma segment_updated f rec (l : gset string) err res :
  run_segment true [f] l
    (match res with Return _ => {[f]} ∪ l | Raise _ => l end)
    [RepoInsert f rec (Raise err); Log INFO "Record exists. Updating." [];
     RepoUpdate f rec res].
Proof.
  split.
  - intros g. split.
    + destruct res as [[]|e].
      * rewrite elem_of_union, elem_of_singleton. intros [->|?]; [right|by left].
        exists (RepoUpdate f rec (Return tt)). split; [|exists rec; by right].
        do 2 apply list_elem_of_further. by apply list_elem_of_here.
      * by left.
    + intros [?|(ev & Hin & rec' & [E|E])].
      * destruct res; [|done]. apply elem_of_union. by right.
      * subst ev. rewrite !elem_of_cons in Hin.
        destruct Hin as [?|[?|[?|Hin]]]; [discriminate..|by inversion Hin].
      * subst ev. rewrite !elem_of_cons in Hin.
        destruct Hin as [?|[?|[E|Hin]]]; [discriminate..| |by inversion Hin].
        injection E as <- _ <-. apply elem_of_union. left. by apply elem_of_singleton.
  - intros ev g Hin. rewrite !elem_of_cons in Hin.
    destruct Hin as [->|[->|[->|Hin]]]; [|discriminate| |by inversion Hin];
      intros [= <-]; by apply list_elem_of_singleton.
  - done.
  - intros g rec' res' Hin. split; [done|]. exists err.
    rewrite !elem_of_cons in Hin.
    destruct Hin as [?|[?|[E|Hin]]]; [discriminate..| |by inversion Hin].
    injection E as <- <- _. by apply list_elem_of_here.
Qed.

(* --------------------------------------------------------------------- *)
(* load_records env: one record, one file, the loop                           *)
(* --------------------------------------------------------------------- *)

Section LoadFacts.

Context {Repo : Type} (env : LoadEnv Repo).

(** The four ways the body of the record loop can go. *)
Lemma insert_record_inserted fu f rec (s : load_state Repo) r u :
  repo_insert env (repo s) rec "local" (get_today_and_now env) = (r, Return u) ->
  insert_record env fu f rec s =
  (mkLoad r ({[f]} ∪ loaded_files s)
          (trace s ++ [inserting env rec; RepoInsert f rec (Return tt);
                       Log INFO "Inserted %s" [AStr f]]),
   Return tt).
Proof.
  intros H. unfold insert_record, emit, add_loaded, set_repo. cbn [repo trace loaded_files].
  rewrite H. cbn [repo trace loaded_files]. by rewrite <- !app_assoc.
Qed.

Lemma insert_record_skipped f rec (s : load_state Repo) r err :
  repo_insert env (repo s) rec "local" (get_today_and_now env) = (r, Raise err) ->
  insert_record env false f rec s =
  (mkLoad r (loaded_files s)
          (trace s ++ [inserting env rec; RepoInsert f rec (Raise err);
                       not_inserted f err]),
   Return tt).
Proof.
  intros H. unfold insert_record, emit, add_loaded, set_repo. cbn [repo trace loaded_files].
  rewrite H. cbn [repo trace loaded_files]. by rewrite <- !app_assoc.
Qed.

Lemma insert_record_updated f rec (s : load_state Repo) r err r' u :
  repo_insert env (repo s) rec "local" (get_today_and_now env) = (r, Raise err) ->
  repo_update env r rec = (r', Return u) ->
  insert_record env true f rec s =
  (mkLoad r' ({[f]} ∪ loaded_files s)
          (trace s ++ [inserting env rec; RepoInsert f rec (Raise err);
                       Log INFO "Record exists. Updating." [];
                       RepoUpdate f rec (Return tt);
                       Log INFO "Updated %s" [AStr f]]),
   Return tt).
Proof.
  intros H H'. unfold insert_record, emit, add_loaded, set_repo. cbn [repo trace loaded_files].
  rewrite H. cbn [repo trace loaded_files]. rewrite H'.
  cbn [repo trace loaded_files]. by rewrite <- !app_assoc.
Qed.

Lemma insert_record_update_raised f rec (s : load_state Repo) r err r' e :
  repo_insert env (repo s) rec "local" (get_today_and_now env) = (r, Raise err) ->
  repo_update env r rec = (r', Raise e) ->
  insert_record env true f rec s =
  (mkLoad r' (loaded_files s)
          (trace s ++ [inserting env rec; RepoInsert f rec (Raise err);
                       Log INFO "Record exists. Updating." [];
                       RepoUpdate f rec (Raise e)]),
   Raise e).
Proof.
  intros H H'. unfold insert_record, emit, add_loaded, set_repo. cbn [repo trace loaded_files].
  rewrite H. cbn [repo trace loaded_files]. rewrite H'.
  cbn [repo trace loaded_files]. by rewrite <- !app_assoc.
Qed.

Lemma insert_record_segment fu f rec (s s' : load_state Repo) res :
  insert_record env fu f rec s = (s', res) ->
  exists evs, trace s' = trace s ++ evs /\
              run_segment fu [f] (loaded_files s) (loaded_files s') evs /\
              processed_files evs = [].
Proof.
  destruct (repo_insert env (repo s) rec "local" (get_today_and_now env))
    as [r [u|err]] eqn:Hins.
  - rewrite (insert_record_inserted _ _ _ _ _ _ Hins). intros [= <- <-].
    eexists. split; [done|]. split; [|done]. cbn [loaded_files].
    apply (run_segment_app _ _ _ (loaded_files s) _ [_] [_; _]).
    { apply run_segment_logs. by repeat constructor. }
    apply (run_segment_app _ _ _ ({[f]} ∪ loaded_files s) _ [_] [_]).
    { apply segment_inserted. }
    apply run_segment_logs. by repeat constructor.
  - destruct fu.
    + destruct (repo_update env r rec) as [r' [u|e]] eqn:Hupd.
      * rewrite (insert_record_updated _ _ _ _ _ _ _ Hins Hupd). intros [= <- <-].
        eexists. split; [done|]. split; [|done]. cbn [loaded_files].
        apply (run_segment_app _ _ _ (loaded_files s) _ [_] [_; _; _; _]).
        { apply run_segment_logs. by repeat constructor. }
        apply (run_segment_app _ _ _ ({[f]} ∪ loaded_files s) _ [_; _; _] [_]).
        { apply (segment_updated f rec (loaded_files s) err (Return tt)). }
        apply run_segment_logs. by repeat constructor.
      * rewrite (insert_record_update_raised _ _ _ _ _ _ _ Hins Hupd). intros [= <- <-].
        eexists. split; [done|]. split; [|done]. cbn [loaded_files].
        apply (run_segment_app _ _ _ (loaded_files s) _ [_] [_; _; _]).
        { apply run_segment_logs. by repeat constructor. }
        apply (segment_updated f rec (loaded_files s) err (Raise e)).
    + rewrite (insert_record_skipped _ _ _ _ _ Hins). intros [= <- <-].
      eexists. split; [done|]. split.
      * cbn [loaded_files].
        apply (run_segment_app _ _ _ (loaded_files s) _ [_] [_; _]).
        { apply run_segment_logs. by repeat constructor. }
        apply (run_segment_app _ _ _ (loaded_files s) _ [_] [_]).
        { apply segment_insert_failed. }
        apply run_segment_logs. repeat constructor.
        unfold not_inserted. by destruct err as [| |k [|a0 args]| | |].
      * by destruct err as [| |k [|a0 args]| | |].
Qed.

Lemma insert_records_segment fu f recs : forall (s s' : load_state Repo) res,
  insert_records env fu f recs s = (s', res) ->
  exists evs, trace s' = trace s ++ evs /\
              run_segment fu [f] (loaded_files s) (loaded_files s') evs /\
              processed_files evs = [].
Proof.
  induction recs as [|rec recs IH]; intros s s' res; cbn [insert_records].
  - intros [= <- <-]. exists []. rewrite app_nil_r.
    split_and!; [done|apply run_segment_nil|done].
  - destruct (insert_record env fu f rec s) as [s1 [u|e]] eqn:Hrec;
      destruct (insert_record_segment _ _ _ _ _ _ Hrec) as (evs1 & Ht1 & Hs1 & Hp1).
    + intros (evs2 & Ht2 & Hs2 & Hp2)%IH. exists (evs1 ++ evs2).
      rewrite Ht2, Ht1, <- app_assoc. split_and!; [done| |].
      * by eapply run_segment_app.
      * unfold processed_files in *. by rewrite omap_app, Hp1, Hp2.
    + intros [= <- <-]. by exists evs1.
Qed.

Lemma omap_none {A B} (f : A -> option B) (l : list A) :
  Forall (fun a => f a = None) l -> omap f l = [].
Proof. induction 1 as [|a l Ha _ IH]; [done|]. simpl. by rewrite Ha. Qed.

Lemma read_events_quiet f :
  Forall (fun ev => repo_file ev = None /\ started ev = None /\
                    inserted_record ev = None /\ file_of ev = Some f /\
                    forall g res, ev <> ParseRecord g res)
         (read_events env f).
Proof.
  unfold read_events. destruct (json_load env f) as [d|err].
  - by repeat constructor.
  - destruct (is_JSONDecodeError err); by repeat constructor.
Qed.

Lemma read_document_continue f ev :
  read_document env f = ReadContinue ev ->
  exists lvl, ev = Log lvl msg_not_well_formed [AStr f].
Proof.
  unfold read_document. destruct (json_load env f) as [?|err]; [done|].
  destruct (is_JSONDecodeError err).
  - by destruct (etree_parse env f).
  - destruct (is_XMLSyntaxError err); intros [= <-]; by eexists.
Qed.

(** The events of one pass of the loop body. *)
Lemma process_file_trace fu total counter f (s s' : load_state Repo) res :
  process_file env fu total counter f s = (s', res) ->
  exists rest,
    trace s' = trace s ++
      Log INFO "Processing file %s (%d of %d)" [AStr f; AInt counter; AInt total]
      :: read_events env f ++ rest /\
    match read_document env f with
    | ReadRaise e =>
        rest = [] /\ res = Raise e /\ loaded_files s' = loaded_files s
    | ReadContinue ev =>
        rest = [ev] /\ res = Return tt /\ loaded_files s' = loaded_files s
    | ReadDoc d =>
        match parse_record env d (repo s) with
        | Raise e =>
            rest = [ParseRecord f (Raise e);
                    Log EXCEPTION msg_could_not_parse [AStr f]] /\
            res = Return tt /\ loaded_files s' = loaded_files s
        | Return recs =>
            exists s0 evs,
              rest = ParseRecord f (Return recs) :: evs /\
              insert_records env fu f recs s0 = (s', res) /\
              trace s' = trace s0 ++ evs /\
              loaded_files s0 = loaded_files s
        end
    end.
Proof.
  unfold process_file, emit_all, emit. cbn [repo trace loaded_files].
  destruct (read_document env f) as [d|ev|e].
  - destruct (parse_record env d (repo s)) as [recs|e] eqn:Hparse.
    + intros Hrun.
      destruct (insert_records_segment _ _ _ _ _ _ Hrun) as (evs & Ht & _).
      cbn [trace] in Ht. exists (ParseRecord f (Return recs) :: evs).
      split.
      { rewrite Ht. by rewrite <- ?app_assoc. }
      eexists _, evs. split_and!; [done|exact Hrun|done|done].
    + intros [= <- <-]. eexists. cbn [trace loaded_files]. split; [|done].
      by rewrite <- ?app_assoc.
  - intros [= <- <-]. exists [ev]. cbn [trace loaded_files]. split; [|done].
    by rewrite <- ?app_assoc.
  - intros [= <- <-]. exists []. cbn [trace loaded_files]. split; [|done].
    by rewrite <- ?app_assoc, ?app_nil_r.
Qed.

Lemma process_file_segment fu total counter f (s s' : load_state Repo) res :
  process_file env fu total counter f s = (s', res) ->
  exists evs, trace s' = trace s ++ evs /\
              run_segment fu [f] (loaded_files s) (loaded_files s') evs /\
              processed_files evs = [f].
Proof.
  intros (rest & Ht & Hrest)%process_file_trace.
  eexists. split; [exact Ht|].
  assert (processed_files (read_events env f) = [] /\
          run_segment fu [f] (loaded_files s) (loaded_files s) (read_events env f))
    as [Hp0 Hs0].
  { split.
    - apply omap_none. eapply Forall_impl; [apply read_events_quiet|].
      by intros ev (_ & ? & _).
    - apply run_segment_logs. eapply Forall_impl; [apply read_events_quiet|].
      by intros ev (? & _). }
  assert (run_segment fu [f] (loaded_files s) (loaded_files s') rest /\
          processed_files rest = []) as [Hs1 Hp1].
  { destruct (read_document env f) as [d|ev|e] eqn:Hread.
    - destruct (parse_record env d (repo s)) as [recs|e].
      + destruct Hrest as (s0 & evs & -> & Hrun & Ht0 & Hl).
        destruct (insert_records_segment _ _ _ _ _ _ Hrun) as (evs' & Ht' & Hs' & Hp').
        rewrite Ht0 in Ht'. apply app_inv_head in Ht' as <-. rewrite Hl in Hs'.
        split; [|done].
        apply (run_segment_app _ _ _ (loaded_files s) _ [_]); [|done].
        apply run_segment_logs. by repeat constructor.
      + destruct Hrest as (-> & _ & ->). split; [|done].
        apply run_segment_logs. by repeat constructor.
    - destruct Hrest as (-> & _ & ->).
      destruct (read_document_continue _ _ Hread) as [lvl ->].
      split; [|by destruct lvl]. apply run_segment_logs. by repeat constructor.
    - destruct Hrest as (-> & _ & ->). split; [apply run_segment_nil|done]. }
  split.
  - apply (run_segment_app _ _ _ (loaded_files s) _ [_]).
    { apply run_segment_logs. by repeat constructor. }
    by apply (run_segment_app _ _ _ (loaded_files s)).
  - unfold processed_files in *. cbn [omap list_omap started String.eqb].
    change (omap started ?l) with (omap started l).
    rewrite omap_app, Hp0, Hp1. done.
Qed.

Lemma process_files_segment fu total files :
  forall counter (s s' : load_state Repo) res,
  process_files env fu total counter files s = (s', res) ->
  exists evs, trace s' = trace s ++ evs /\
              run_segment fu files (loaded_files s) (loaded_files s') evs /\
              processed_files evs `prefix_of` files /\
              (forall u, res = Return u -> processed_files evs = files).
Proof.
  induction files as [|f files IH]; intros counter s s' res; cbn [process_files].
  - intros [= <- <-]. exists []. rewrite app_nil_r.
    split_and!; [done|apply run_segment_nil|done|done].
  - destruct (process_file env fu total (S counter) f s) as [s1 [u|e]] eqn:Hfile;
      destruct (process_file_segment _ _ _ _ _ _ _ Hfile) as (evs1 & Ht1 & Hs1 & Hp1).
    + intros (evs2 & Ht2 & Hs2 & Hp2 & Hret)%IH. exists (evs1 ++ evs2).
      rewrite Ht2, Ht1, <- app_assoc. unfold processed_files in *.
      rewrite omap_app, Hp1. split_and!; [done| | |].
      * eapply run_segment_app; (eapply run_segment_files; [|eassumption]);
          intros g Hg; rewrite elem_of_cons; [left|by right].
        by apply list_elem_of_singleton in Hg.
      * by apply (prefix_app [f]).
      * intros u' Hu. by rewrite (Hret _ Hu).
    + intros [= <- <-]. exists evs1. split_and!; [done| | |done].
      * eapply run_segment_files; [|eassumption].
        intros g Hg. rewrite elem_of_cons. left. by apply list_elem_of_singleton in Hg.
      * rewrite Hp1. by apply (prefix_app [f] [] files), prefix_nil.
Qed.

(** What every run over a candidate list satisfies. *)
Lemma load_file_list_segment file_list fu r (s : load_state Repo) res :
  load_file_list env file_list fu r = (s, res) ->
  run_segment fu file_list ∅ (loaded_files s) (trace s) /\
  processed_files (trace s) `prefix_of` sorted file_list /\
  (forall files, res = Return files ->
     files = elements (loaded_files s) /\
     processed_files (trace s) = sorted file_list).
Proof.
  unfold load_file_list.
  destruct (process_files env _ _ _ _ _) as [s1 [u|e]] eqn:Hrun;
    destruct (process_files_segment _ _ _ _ _ _ _ Hrun) as (evs & Ht & Hs & Hp & Hret);
    cbn [trace loaded_files] in Ht, Hs; rewrite app_nil_l in Ht; subst evs;
    intros [= <- <-]; (split_and!; [|done|]).
  - eapply run_segment_files; [|eassumption]. intros g. by rewrite sorted_elem_of.
  - intros files [= <-]. split; [done|]. by eapply Hret.
  - eapply run_segment_files; [|eassumption]. intros g. by rewrite sorted_elem_of.
  - done.
Qed.

(* the blocks of a run *)

Lemma insert_record_block fu f rec (s s' : load_state Repo) res :
  insert_record env fu f rec s = (s', res) ->
  exists evs, trace s' = trace s ++ evs /\
    omap inserted_record evs = [rec] /\
    Forall (fun ev => (forall g, file_of ev = Some g -> g = f) /\
                      forall g r, ev <> ParseRecord g r) evs.
Proof.
  destruct (repo_insert env (repo s) rec "local" (get_today_and_now env))
    as [r [u|err]] eqn:Hins.
  - rewrite (insert_record_inserted _ _ _ _ _ _ Hins). intros [= <- <-].
    eexists. split; [done|]. split; [done|].
    repeat constructor; try done; cbn; congruence.
  - destruct fu.
    + destruct (repo_update env r rec) as [r' [u|e]] eqn:Hupd.
      * rewrite (insert_record_updated _ _ _ _ _ _ _ Hins Hupd). intros [= <- <-].
        eexists. split; [done|]. split; [done|].
        repeat constructor; try done; cbn; congruence.
      * rewrite (insert_record_update_raised _ _ _ _ _ _ _ Hins Hupd).
        intros [= <- <-]. eexists. split; [done|]. split; [done|].
        repeat constructor; try done; cbn; congruence.
    + rewrite (insert_record_skipped _ _ _ _ _ Hins). intros [= <- <-].
      eexists. split; [done|]. split.
      * by destruct err as [| |k [|a0 args]| | |].
      * repeat constructor; try done; try (cbn; congruence);
          by destruct err as [| |k [|a0 args]| | |].
Qed.

Lemma insert_records_block fu f recs : forall (s s' : load_state Repo) res,
  insert_records env fu f recs s = (s', res) ->
  exists evs, trace s' = trace s ++ evs /\
    omap inserted_record evs `prefix_of` recs /\
    (res = Return tt -> omap inserted_record evs = recs) /\
    Forall (fun ev => (forall g, file_of ev = Some g -> g = f) /\
                      forall g r, ev <> ParseRecord g r) evs.
Proof.
  induction recs as [|rec recs IH]; intros s s' res; cbn [insert_records].
  - intros [= <- <-]. exists []. rewrite app_nil_r. by split_and!.
  - destruct (insert_record env fu f rec s) as [s1 [u|e]] eqn:Hrec;
      destruct (insert_record_block _ _ _ _ _ _ Hrec) as (evs1 & Ht1 & Hi1 & Hf1).
    + intros (evs2 & Ht2 & Hi2 & Hr2 & Hf2)%IH. exists (evs1 ++ evs2).
      rewrite Ht2, Ht1, <- app_assoc, omap_app, Hi1. split_and!; [done| | |].
      * by apply (prefix_app [rec]).
      * intros Hres. cbn [app]. by rewrite (Hr2 Hres).
      * by apply Forall_app.
    + intros [= <- <-]. exists evs1. rewrite Hi1. split_and!; [done| |done|done].
      by apply (prefix_app [rec] [] recs), prefix_nil.
Qed.

Lemma process_file_block fu total counter f (s s' : load_state Repo) res :
  process_file env fu total counter f s = (s', res) ->
  exists block, trace s' = trace s ++ block /\
                file_block env f block res /\
                processed_files block = [f].
Proof.
  intros Hrun.
  destruct (process_file_segment _ _ _ _ _ _ _ Hrun) as (block' & Ht' & _ & Hp).
  destruct (process_file_trace _ _ _ _ _ _ _ Hrun) as (rest & Ht & Hrest).
  rewrite Ht in Ht'. apply app_inv_head in Ht' as <-.
  eexists. split; [exact Ht|]. split; [|done].
  pose proof (read_events_quiet f) as Hq. rewrite Forall_forall in Hq.
  assert (omap started rest = []) as Hp1.
  { unfold processed_files in Hp. simpl in Hp. rewrite omap_app in Hp.
    injection Hp as Hp. by apply app_eq_nil in Hp as [_ ?]. }
  assert (omap inserted_record (read_events env f) = []) as Hi0.
  { apply omap_none, Forall_forall. by intros ev (_ & _ & ? & _)%Hq. }
  assert ((forall ev g, ev ∈ rest -> file_of ev = Some g -> g = f) /\
          (forall d, read_document env f = ReadDoc d ->
             exists r, head rest = Some (ParseRecord f (parse_record env d r))) /\
          ((forall d, read_document env f <> ReadDoc d) ->
             forall ev, ev ∈ rest -> file_of ev = None) /\
          (forall recs, ParseRecord f (Return recs) ∈ rest ->
             omap inserted_record rest `prefix_of` recs /\
             (res = Return tt -> omap inserted_record rest = recs)))
    as (Hfile & Hparsed & Hskipped & Hrecs).
  { destruct (read_document env f) as [d|ev0|e] eqn:Hread.
    - destruct (parse_record env d (repo s)) as [recs|e] eqn:Hparse.
      + destruct Hrest as (s0 & evs & -> & Hins & Ht0 & _).
        destruct (insert_records_block _ _ _ _ _ _ Hins)
          as (evs' & Hte & Hpre & Hfull & Hf).
        rewrite Ht0 in Hte. apply app_inv_head in Hte as <-.
        rewrite Forall_forall in Hf. split_and!.
        * intros ev g [->|Hin]%elem_of_cons; [cbn; congruence|].
          by apply (Hf _ Hin).
        * intros d' [= <-]. exists (repo s). by rewrite Hparse.
        * intros Hno. by destruct (Hno d).
        * intros recs' [E|Hin]%elem_of_cons.
          -- injection E as <-. done.
          -- by destruct (proj2 (Hf _ Hin) f (Return recs')).
      + destruct Hrest as (-> & -> & _). split_and!.
        * intros ev g. rewrite !elem_of_cons, elem_of_nil.
          intros [->|[->|[]]]; cbn; congruence.
        * intros d' [= <-]. exists (repo s). by rewrite Hparse.
        * intros Hno. by destruct (Hno d).
        * intros recs'. rewrite !elem_of_cons, elem_of_nil.
          intros [?|[?|[]]]; discriminate.
    - destruct Hrest as (-> & -> & _).
      destruct (read_document_continue _ _ Hread) as [lvl ->]. split_and!.
      + intros ev g. rewrite !elem_of_cons, elem_of_nil. intros [->|[]].
        by destruct lvl.
      + done.
      + intros _ ev. rewrite !elem_of_cons, elem_of_nil. intros [->|[]].
        by destruct lvl.
      + intros recs'. rewrite !elem_of_cons, elem_of_nil.
        intros [?|[]]; discriminate.
    - destruct Hrest as (-> & -> & _). split_and!.
      + intros ev g Hin. by inversion Hin.
      + done.
      + intros _ ev Hin. by inversion Hin.
      + intros recs' Hin. by inversion Hin. }
  split.
  - by exists counter, total, rest.
  - intros ev g [->|[Hin|Hin]%elem_of_app]%elem_of_cons.
    + cbn. congruence.
    + destruct (Hq _ Hin) as (_ & _ & _ & Hev & _). congruence.
    + by apply Hfile.
  - intros recs [E|[Hin|Hin]%elem_of_app]%elem_of_cons.
    + discriminate.
    + destruct (Hq _ Hin) as (_ & _ & _ & _ & Hev). by destruct (Hev f (Return recs)).
    + assert (omap inserted_record
                (Log INFO "Processing file %s (%d of %d)"
                     [AStr f; AInt counter; AInt total]
                 :: read_events env f ++ rest) = omap inserted_record rest) as ->.
      { change (omap inserted_record
                  ([Log INFO "Processing file %s (%d of %d)"
                        [AStr f; AInt counter; AInt total]] ++
                   (read_events env f ++ rest)) = omap inserted_record rest).
        by rewrite !omap_app, Hi0. }
      by apply Hrecs.
Qed.

Lemma process_files_blocks fu total files :
  forall counter (s s' : load_state Repo) res,
  process_files env fu total counter files s = (s', res) ->
  exists blocks,
    trace s' = trace s ++ concat blocks /\
    Forall2 (fun f b => exists r, file_block env f b r /\
                                  (res = Return tt -> r = Return tt))
            (processed_files (concat blocks)) blocks.
Proof.
  induction files as [|f files IH]; intros counter s s' res; cbn [process_files].
  - intros [= <- <-]. exists []. rewrite app_nil_r. split; [done|constructor].
  - destruct (process_file env fu total (S counter) f s) as [s1 [[]|e]] eqn:Hfile;
      destruct (process_file_block _ _ _ _ _ _ _ Hfile) as (b & Ht1 & Hb & Hp1).
    + intros (blocks & Ht2 & Hall)%IH. exists (b :: blocks).
      rewrite Ht2, Ht1, <- app_assoc. split; [done|].
      cbn [concat]. unfold processed_files in *. rewrite omap_app, Hp1.
      constructor; [|done]. by exists (Return tt).
    + intros [= <- <-]. exists [b]. cbn [concat]. rewrite app_nil_r.
      split; [done|]. rewrite Hp1. constructor; [|constructor].
      by exists (Raise e).
Qed.

(** A run is a sequence of blocks, one for each file that was started. *)
Lemma load_file_list_blocks file_list fu r (s : load_state Repo) res :
  load_file_list env file_list fu r = (s, res) ->
  exists blocks,
    trace s = concat blocks /\
    Forall2 (fun f b => exists r, file_block env f b r /\
                                  (forall files, res = Return files -> r = Return tt))
            (processed_files (trace s)) blocks.
Proof.
  unfold load_file_list.
  destruct (process_files env _ _ _ _ _) as [s1 [[]|e]] eqn:Hrun;
    destruct (process_files_blocks _ _ _ _ _ _ _ Hrun) as (blocks & Ht & Hall);
    cbn [trace] in Ht; rewrite app_nil_l in Ht;
    intros [= <- <-]; exists blocks; (split; [done|]); rewrite Ht;
    (eapply Forall2_impl; [exact Hall|]); intros f b (r0 & Hb & Hr); exists r0;
    (split; [done|]).
  - intros _ _. by apply Hr.
  - by intros files.
Qed.

(** A parse error of etree.parse is raised inside the handler of
    JSONDecodeError and leaves the loop over the files. *)
Lemma process_file_parse_error_escapes fu total counter f (s : load_state Repo) m e :
  json_load env f = Raise (JSONDecodeError m) ->
  etree_parse env f = Raise e ->
  process_file env fu total counter f s =
  (emit_all [JsonLoad f (Raise (JSONDecodeError m)); EtreeParse f (Raise e)]
     (emit (Log INFO "Processing file %s (%d of %d)"
                [AStr f; AInt counter; AInt total]) s),
   Raise e).
Proof.
  intros Hj Hx. unfold process_file, read_document, read_events.
  by rewrite Hj, Hx.
Qed.

End LoadFacts.

Lemma reorder_refl n : reorder n n.
Proof.
  induction n as [|es IH] using node_ind_entries; constructor.
  induction IH as [|[name c] es Hc _ IHes]; constructor; auto.
Qed.

(* --------------------------------------------------------------------- *)
(* Claims about load_records                                              *)
(* --------------------------------------------------------------------- *)

Ltac list_mem :=
  repeat first [apply list_elem_of_here | apply list_elem_of_further].

Ltac list_not_mem H :=
  repeat (apply elem_of_cons in H as [H|H]; [discriminate|]); by inversion H.

(** a run of load_records that has a state is a run over the candidate
    list, on the repository that was opened *)
Lemma load_records_run {Repo} (env : LoadEnv Repo)
    xml_dirpath fs recursive force_update s res :
  load_records env xml_dirpath fs recursive force_update = (Some s, res) ->
  exists r, repository env = Return r /\
            load_file_list env (scan_files xml_dirpath fs recursive)
                           force_update r = (s, res).
Proof.
  unfold load_records. destruct (repository env) as [r|e]; [|done].
  destruct (load_file_list env _ _ r) as [s0 res0] eqn:Hrun.
  intros [= <- <-]. by exists r.
Qed.

(** C4 as stated does not hold: in non-recursive mode the candidates are
    not the files that match.  /data holds the directory sub.xml, the
    hidden file .a.xml and the file b.xml: the candidate list holds the
    directory /data/sub.xml, and it does not hold the file /data/.a.xml,
    whose name ends in .xml. *)
Lemma scan_files_lists_directories_counterexample :
  Sample.mixed =
    Dir [("sub.xml", Dir [("deep.xml", File)]); (".a.xml", File); ("b.xml", File)] /\
  scan_files "/data" (plain_view (Some Sample.mixed)) false =
    ["/data/sub.xml"; "/data/b.xml"].
Proof. split; vm_compute; reflexivity. Qed.

(** C4, amended. The candidate list of load_records: a path that is a
    file gives exactly that path; in recursive mode the list holds exactly
    the non-directory entries of the whole tree whose name ends in .xml
    (never one whose name ends in .json), and nothing when there is no such
    path; otherwise it holds exactly the entries, files and directories
    alike, whose name does not start with a dot and ends in .xml or .json,
    found directly in the directories that glob lists, and nothing from
    deeper levels; for a path that is not empty and holds no glob
    metacharacter, glob lists the one directory that the path designates. *)
Theorem scan_files_selects :
  (forall xml_dirpath fs recursive,
     target_of xml_dirpath fs = Some File ->
     scan_files xml_dirpath fs recursive = [xml_dirpath]) /\
  (forall xml_dirpath fs es p,
     target_of xml_dirpath fs = Some (Dir es) ->
     p ∈ scan_files xml_dirpath fs true <->
     exists root name,
       tree_file xml_dirpath (Dir es) root name /\
       PyStr.endswith ".xml" name = true /\ PyStr.endswith ".json" name = false /\
       p = os_path_join root name) /\
  (forall xml_dirpath fs,
     target_of xml_dirpath fs = None -> scan_files xml_dirpath fs true = []) /\
  (forall xml_dirpath fs p,
     target_of xml_dirpath fs <> Some File ->
     p ∈ scan_files xml_dirpath fs false <->
     exists dirname es name child,
       (dirname, Some (Dir es)) ∈ glob_listings xml_dirpath fs /\
       (name, child) ∈ es /\
       (glob_keeps ".xml" name \/ glob_keeps ".json" name) /\
       p = os_path_join dirname name) /\
  (forall xml_dirpath fs,
     xml_dirpath <> EmptyString -> has_magic (glob_dirname xml_dirpath) = false ->
     glob_listings xml_dirpath fs = [(glob_dirname xml_dirpath, designated fs)]).
Proof.
  split_and!.
  - intros d fs recursive Ht. unfold scan_files. by rewrite Ht.
  - intros d fs es p Ht. rewrite (scan_files_recursive d fs (Dir es)) by done. split.
    + intros (root & name & Htree & Hx & ->)%walk_xml_sound.
      exists root, name. split_and!; [done..| |done]. by apply endswith_xml_not_json.
    + intros (root & name & Htree & Hx & _ & ->). by apply walk_xml_complete.
  - intros d fs Ht. unfold scan_files. by rewrite Ht.
  - intros d fs p Ht. unfold scan_files.
    assert (os_path_isfile (target_of d fs) = false) as ->.
    { by destruct (target_of d fs) as [[|es]|]. }
    rewrite elem_of_app, !glob_star by done. split.
    + intros [(dirname & es & name & child & ? & ? & ? & ->)|
              (dirname & es & name & child & ? & ? & ? & ->)];
        exists dirname, es, name, child; auto.
    + intros (dirname & es & name & child & ? & ? & [?|?] & ->); [left|right];
        by exists dirname, es, name, child.
  - apply glob_listings_plain.
Qed.

Lemma scan_files_selects_witness :
  "/data/old/z.xml" ∈ scan_files "/data" (plain_view (Some Sample.good)) true /\
  "/data/m.json" ∈ scan_files "/data" (plain_view (Some Sample.good)) false /\
  glob_listings "/data" (plain_view (Some Sample.good)) =
    [("/data", Some Sample.good)].
Proof.
  destruct scan_files_selects as (_ & Hrec & _ & Hflat & Hplain). split_and!.
  - eapply Hrec; [reflexivity|]. exists "/data/old", "z.xml". split_and!; [|done..].
    eapply (tree_file_below "/data" _ "old").
    + do 3 apply list_elem_of_further. apply list_elem_of_here.
    + apply tree_file_here. apply list_elem_of_here.
  - apply Hflat; [done|]. eexists "/data", _, "m.json", File.
    split_and!; [apply list_elem_of_here| |by right|done].
    do 4 apply list_elem_of_further. apply list_elem_of_here.
  - by apply (Hplain "/data" (plain_view (Some Sample.good))).
Defined.

(** C5. load_records works through the files in the order of
    [sorted(file_list)]: that list is in ascending string order and holds
    the candidates and nothing else; the run is a sequence of blocks, one
    for each file started, in that order, the block of a file holding the
    line that announces it, its reads, the call of metadata.parse_record
    on its document and the repository calls for its records, and nothing
    that concerns another file; a run that returns has worked through the
    whole list, a run that raises through a prefix of it; the order
    depends on the candidates only, not on the order in which the
    directories were enumerated, so the run over a re-enumerated file
    system is the same run. *)
Theorem load_records_sorted_order {Repo} (env : LoadEnv Repo)
    xml_dirpath fs recursive force_update s res :
  load_records env xml_dirpath fs recursive force_update = (Some s, res) ->
  let file_list := scan_files xml_dirpath fs recursive in
  StronglySorted PyStr.le (sorted file_list) /\
  sorted file_list ≡ₚ file_list /\
  (exists blocks,
     trace s = concat blocks /\
     Forall2 (fun recfile block =>
                exists r, file_block env recfile block r /\
                          (forall files, res = Return files -> r = Return tt))
             (processed_files (trace s)) blocks) /\
  processed_files (trace s) `prefix_of` sorted file_list /\
  (forall files, res = Return files -> processed_files (trace s) = sorted file_list) /\
  (forall file_list', file_list' ≡ₚ file_list -> sorted file_list' = sorted file_list) /\
  (forall fs', reorder_view fs fs' ->
     load_records env xml_dirpath fs' recursive force_update = (Some s, res)).
Proof.
  intros Hload file_list.
  destruct (load_records_run _ _ _ _ _ _ _ Hload) as (r & Hrepo & Hrun).
  destruct (load_file_list_segment env _ _ _ _ _ Hrun) as (_ & Hpre & Hret).
  split_and!.
  - apply sorted_Sorted.
  - apply sorted_Permutation.
  - by apply (load_file_list_blocks env _ _ _ _ _ Hrun).
  - done.
  - intros files Hf. by destruct (Hret _ Hf).
  - intros file_list' Hp. by apply sorted_perm_invariant.
  - intros fs' Hv. rewrite <- Hload. unfold load_records, load_file_list.
    assert (scan_files xml_dirpath fs' recursive ≡ₚ
            scan_files xml_dirpath fs recursive) as Hp.
    { symmetry. by apply reorder_scan_files. }
    by rewrite Hrepo, (sorted_perm_invariant _ _ Hp), (Permutation_length Hp).
Qed.

Lemma load_records_sorted_order_witness :
  processed_files
    (trace_of (load_records Sample.env "/data" (plain_view (Some Sample.good))
                            false false).1) =
  ["/data/a.xml"; "/data/c.xml"; "/data/m.json"; "/data/two.xml"] /\
  load_records Sample.env "/data" (plain_view (Some Sample.good')) false false =
  load_records Sample.env "/data" (plain_view (Some Sample.good)) false false.
Proof.
  destruct (load_records Sample.env "/data" (plain_view (Some Sample.good))
                         false false) as [[s|] res] eqn:Hrun;
    [|by vm_compute in Hrun].
  destruct (load_records_sorted_order Sample.env _ _ _ _ _ _ Hrun)
    as (_ & _ & _ & _ & Hall & _ & Hsame).
  split.
  - assert (res = Return ["/data/c.xml"; "/data/a.xml"; "/data/two.xml"]) as Hres.
    { change res with (Some s, res).2. rewrite <- Hrun. vm_compute. reflexivity. }
    cbn [fst trace_of]. rewrite (Hall _ Hres). vm_compute. reflexivity.
  - apply (Hsame (plain_view (Some Sample.good'))). split; cbn.
    + apply reorder_some, reorder_dir.
      eapply reorder_trans; [apply reorder_swap|].
      do 3 (apply reorder_skip; [apply reorder_file|]).
      apply reorder_skip; [apply reorder_dir, reorder_swap|].
      apply reorder_skip; [apply reorder_file|apply reorder_nil].
    + apply reorder_none.
    + intros _. exists []. split; [constructor|done].
Defined.

(** C1 as stated does not hold: /data/two.xml yields two records, the
    first is inserted, the insert of the second fails on the NOT NULL
    constraint and is not followed by an update, and the file is in the
    returned collection all the same. *)
Lemma load_records_every_record_counterexample :
  let run := load_records Sample.env "/data/two.xml" (plain_view (Some File))
                          false false in
  run.2 = Return ["/data/two.xml"] /\
  RepoInsert "/data/two.xml" Sample.rec_bad
    (Raise (DBAPIError StorageFailure
              ["NOT NULL constraint failed: records.anytext"])) ∈ trace_of run.1 /\
  (forall res, RepoUpdate "/data/two.xml" Sample.rec_bad res ∉ trace_of run.1).
Proof.
  split_and!.
  - vm_compute. reflexivity.
  - vm_compute trace_of. list_mem.
  - intros res H. vm_compute trace_of in H. list_not_mem H.
Qed.

(** C1, amended. When load_records returns, a file is in the returned
    collection exactly when at least one record extracted from it was
    stored: inserted, or updated after its insert failed. *)
Theorem load_records_returns_files_with_a_stored_record {Repo} (env : LoadEnv Repo)
    xml_dirpath fs recursive force_update s files :
  load_records env xml_dirpath fs recursive force_update = (Some s, Return files) ->
  forall f, f ∈ files <-> exists ev, ev ∈ trace s /\ stores f ev.
Proof.
  intros (r & _ & Hrun)%load_records_run f.
  destruct (load_file_list_segment env _ _ _ _ _ Hrun) as ([Hm _ _ _] & _ & Hret).
  destruct (Hret files eq_refl) as [-> _].
  rewrite elem_of_elements, Hm. split; [|by right].
  intros [Hin|?]; [|done]. by apply not_elem_of_empty in Hin.
Qed.

Lemma load_records_returns_files_with_a_stored_record_witness :
  exists ev,
    ev ∈ trace_of (load_records Sample.env "/data" (plain_view (Some Sample.good))
                                false false).1 /\
    stores "/data/two.xml" ev.
Proof.
  destruct (load_records Sample.env "/data" (plain_view (Some Sample.good))
                         false false) as [[s|] res] eqn:Hrun;
    [|by vm_compute in Hrun].
  cbn [fst trace_of].
  apply (load_records_returns_files_with_a_stored_record
           Sample.env "/data" (plain_view (Some Sample.good)) false false s
           ["/data/c.xml"; "/data/a.xml"; "/data/two.xml"]).
  - rewrite Hrun. f_equal. change res with (Some s, res).2. rewrite <- Hrun.
    vm_compute. reflexivity.
  - list_mem.
Defined.

(** C10. The collection that load_records returns has no duplicates and
    holds candidate files only. *)
Theorem load_records_returns_distinct_candidates {Repo} (env : LoadEnv Repo)
    xml_dirpath fs recursive force_update s files :
  load_records env xml_dirpath fs recursive force_update = (Some s, Return files) ->
  NoDup files /\
  forall f, f ∈ files -> f ∈ scan_files xml_dirpath fs recursive.
Proof.
  intros (r & _ & Hrun)%load_records_run.
  destruct (load_file_list_segment env _ _ _ _ _ Hrun) as ([Hm Hf _ _] & _ & Hret).
  destruct (Hret files eq_refl) as [-> _]. split; [apply NoDup_elements|].
  intros f [Hin|(ev & Hin & rec & [->| ->])]%elem_of_elements%Hm.
  - by apply not_elem_of_empty in Hin.
  - by apply (Hf _ _ Hin).
  - by apply (Hf _ _ Hin).
Qed.

Lemma load_records_returns_distinct_candidates_witness :
  NoDup ["/data/c.xml"; "/data/a.xml"; "/data/two.xml"] /\
  forall f, f ∈ ["/data/c.xml"; "/data/a.xml"; "/data/two.xml"] ->
            f ∈ scan_files "/data" (plain_view (Some Sample.good)) false.
Proof.
  destruct (load_records Sample.env "/data" (plain_view (Some Sample.good))
                         false false) as [[s|] res] eqn:Hrun;
    [|by vm_compute in Hrun].
  apply (load_records_returns_distinct_candidates
           Sample.env "/data" (plain_view (Some Sample.good)) false false s).
  rewrite Hrun. f_equal. change res with (Some s, res).2. rewrite <- Hrun.
  vm_compute. reflexivity.
Defined.

(** C3 fails on the code.  /data holds a.xml and c.xml, which are well
    formed, and b.xml, which has an unclosed tag: the run raises the
    XMLSyntaxError of b.xml instead of returning, and c.xml is never
    started. *)
Theorem load_records_malformed_xml_aborts :
  let run := load_records Sample.env "/data" (plain_view (Some Sample.data))
                          false false in
  sorted (scan_files "/data" (plain_view (Some Sample.data)) false) =
    ["/data/a.xml"; "/data/b.xml"; "/data/c.xml"] /\
  run.2 = Raise (XMLSyntaxError "Premature end of data in tag Record line 1") /\
  processed_files (trace_of run.1) = ["/data/a.xml"; "/data/b.xml"].
Proof. split_and!; vm_compute; reflexivity. Qed.

(** C2 as stated does not hold under force_update: the connection drops
    during the insert of urn:a, which is a storage failure and not a
    duplicate-identifier conflict, and load_records calls repo.update for
    the record and returns the file as processed. *)
Lemma load_records_storage_failure_counterexample :
  let run := load_records (Sample.env_on Sample.flaky) "/data/a.xml"
                          (plain_view (Some File)) false true in
  let err := DBAPIError StorageFailure ["server closed the connection"] in
  is_conflict err = false /\
  RepoInsert "/data/a.xml" Sample.rec_a (Raise err) ∈ trace_of run.1 /\
  RepoUpdate "/data/a.xml" Sample.rec_a (Return tt) ∈ trace_of run.1 /\
  run.2 = Return ["/data/a.xml"].
Proof.
  split_and!.
  - reflexivity.
  - vm_compute trace_of. list_mem.
  - vm_compute trace_of. list_mem.
  - vm_compute. reflexivity.
Qed.

(** C2, amended. The code does not look at the reason of a failed
    insert.  For a record whose insert raises, whatever the error:
    without force_update the failure is logged, the insert is not
    repeated, repo.update is not called and the record does not mark the
    file; with force_update repo.update is called for the record, and the
    file is marked when the update returns, while an error of the update
    leaves the run.  In a whole run repo.update is called only under
    force_update and only for a record whose insert raised. *)
Theorem insert_failure_policy {Repo} (env : LoadEnv Repo)
    recfile rec (s : load_state Repo) r err :
  repo_insert env (repo s) rec "local" (get_today_and_now env) = (r, Raise err) ->
  insert_record env false recfile rec s =
    (mkLoad r (loaded_files s)
            (trace s ++ [inserting env rec; RepoInsert recfile rec (Raise err);
                         not_inserted recfile err]),
     Return tt) /\
  (exists r' upd,
     repo_update env r rec = (r', upd) /\
     insert_record env true recfile rec s =
       (mkLoad r'
               (match upd with Return _ => {[recfile]} ∪ loaded_files s
                             | Raise _ => loaded_files s end)
               (trace s ++ [inserting env rec; RepoInsert recfile rec (Raise err);
                            Log INFO "Record exists. Updating." []] ++
                match upd with
                | Return _ => [RepoUpdate recfile rec (Return tt);
                               Log INFO "Updated %s" [AStr recfile]]
                | Raise e => [RepoUpdate recfile rec (Raise e)]
                end),
        match upd with Return _ => Return tt | Raise e => Raise e end)) /\
  (forall xml_dirpath fs recursive force_update s' res f rec' upd,
     load_records env xml_dirpath fs recursive force_update = (Some s', res) ->
     RepoUpdate f rec' upd ∈ trace s' ->
     force_update = true /\ exists err', RepoInsert f rec' (Raise err') ∈ trace s').
Proof.
  intros Hins. split_and!.
  - by apply insert_record_skipped.
  - destruct (repo_update env r rec) as [r' [u|e]] eqn:Hupd; exists r'; eexists;
      (split; [done|]).
    + by apply (insert_record_updated env _ _ _ _ _ _ _ Hins Hupd).
    + by apply (insert_record_update_raised env _ _ _ _ _ _ _ Hins Hupd).
  - intros d fs recursive fu s' res f rec' upd
      (r0 & _ & Hrun)%load_records_run Hin.
    destruct (load_file_list_segment env _ _ _ _ _ Hrun) as ([_ _ _ Hu] & _).
    by apply (Hu _ _ _ Hin).
Qed.

Lemma insert_failure_policy_witness :
  insert_record Sample.env false "/data/two.xml" Sample.rec_bad
                (mkLoad MemRepo.empty ∅ []) =
  (mkLoad MemRepo.empty ∅
          [inserting Sample.env Sample.rec_bad;
           RepoInsert "/data/two.xml" Sample.rec_bad
             (Raise (DBAPIError StorageFailure
                       ["NOT NULL constraint failed: records.anytext"]));
           Log ERROR "ERROR: %s not inserted: %s"
               [AStr "/data/two.xml";
                AStr "NOT NULL constraint failed: records.anytext"]],
   Return tt).
Proof.
  apply (insert_failure_policy Sample.env "/data/two.xml" Sample.rec_bad
           (mkLoad MemRepo.empty ∅ []) MemRepo.empty
           (DBAPIError StorageFailure
              ["NOT NULL constraint failed: records.anytext"])).
  reflexivity.
Defined.

(* --------------------------------------------------------------------- *)
(* export_records                                                         *)
(* --------------------------------------------------------------------- *)

Section ExportFacts.

Context (env : ExportEnv).

Lemma export_record_written dirpath n rec s txt :
  written_text env n rec = Some txt ->
  export_record env dirpath n rec s =
  (mkExport (<[export_filename env dirpath rec := txt]> (disk s))
            ({[export_filename env dirpath rec]} ∪ exported_files s)
            (etrace s ++ [Log INFO "Processing %s" [AStr (identifier rec)];
                          Log INFO "Writing to file %s"
                              [AStr (export_filename env dirpath rec)]]),
   Return tt).
Proof.
  unfold written_text, export_record.
  destruct (str_xml_of env rec) as [str|]; [|done].
  destruct (io_fault env n); [|done..]. intros [= <-].
  unfold add_exported, set_disk, elog. cbn [disk exported_files etrace].
  by rewrite <- app_assoc.
Qed.

(** The handler of a failed write: it logs; when it returns, no file is
    left at the path; it raises exactly when something is at the path
    and os.remove raises. *)
Lemma write_failed_spec n filename s s' res :
  write_failed env n filename s = (s', res) ->
  exported_files s' = exported_files s /\
  etrace s' = etrace s ++ [Log EXCEPTION "Error writing %s to disk" [AStr filename]] /\
  (forall p, p <> filename -> disk s' !! p = disk s !! p) /\
  match res with
  | Return _ => disk s' !! filename = None
  | Raise e => remove_fault env n = Some e /\
               os_path_exists env filename s = true /\ disk s' = disk s
  end.
Proof.
  unfold write_failed, os_path_exists. cbn [elog disk].
  destruct (bool_decide (is_Some (disk s !! filename)) || occupied env filename)
    eqn:Hex.
  - destruct (remove_fault env n) as [e|] eqn:Hrm; intros [= <- <-];
      cbn [set_disk elog disk exported_files etrace].
    + by split_and!.
    + split_and!; [done|done| |apply lookup_delete_eq].
      intros p Hp. by rewrite lookup_delete_ne.
  - intros [= <- <-]. cbn [set_disk elog disk exported_files etrace].
    split_and!; [done..|].
    apply orb_false_iff in Hex as [Hd _]. apply bool_decide_eq_false in Hd.
    destruct (disk s !! filename) eqn:E; [|done]. destruct Hd. by eexists.
Qed.

Lemma export_record_failed dirpath n rec s s' res :
  written_text env n rec = None ->
  export_record env dirpath n rec s = (s', res) ->
  let filename := export_filename env dirpath rec in
  (forall p, p <> filename -> disk s' !! p = disk s !! p) /\
  exported_files s' = exported_files s /\
  etrace s' = etrace s ++ [Log INFO "Processing %s" [AStr (identifier rec)];
                           Log INFO "Writing to file %s" [AStr filename];
                           Log EXCEPTION "Error writing %s to disk" [AStr filename]] /\
  match res with
  | Return _ => disk s' !! filename = None
  | Raise e => remove_fault env n = Some e
  end.
Proof.
  intros Hw Hrun filename. unfold written_text in Hw. unfold export_record in Hrun.
  fold filename in Hrun.
  destruct (str_xml_of env rec) as [str|];
    [destruct (io_fault env n) as [|e|written e]; [done|..]|];
    apply write_failed_spec in Hrun as (He & Ht & Hd & Hres);
    cbn [set_disk elog disk exported_files etrace] in He, Ht, Hd, Hres;
    rewrite He, Ht, <- !app_assoc;
    (split_and!; [|done|done|by destruct res as [u|e']; [|destruct Hres]]);
    intros p Hp; rewrite Hd by done; [done| |done].
  by rewrite lookup_insert_ne.
Qed.

(** One pass of the loop keeps the lines logged so far and touches the
    disk at the path of its record only. *)
Lemma export_record_keeps dirpath n rec s s' res :
  export_record env dirpath n rec s = (s', res) ->
  (forall ev, ev ∈ etrace s -> ev ∈ etrace s') /\
  (forall p, p <> export_filename env dirpath rec -> disk s' !! p = disk s !! p).
Proof.
  intros Hrun. destruct (written_text env n rec) as [txt|] eqn:Hw.
  - rewrite (export_record_written _ _ _ _ _ Hw) in Hrun. injection Hrun as <- <-.
    cbn [etrace disk]. split.
    + intros ev Hin. apply elem_of_app. by left.
    + intros p Hp. by rewrite lookup_insert_ne.
  - destruct (export_record_failed dirpath _ _ _ _ _ Hw Hrun) as (Hd & _ & Ht & _).
    split; [|done]. intros ev Hin. rewrite Ht. apply elem_of_app. by left.
Qed.

Lemma export_loop_keeps dirpath records : forall n s s' res,
  export_loop env dirpath n records s = (s', res) ->
  (forall ev, ev ∈ etrace s -> ev ∈ etrace s') /\
  (forall p, (forall rec, rec ∈ records -> export_filename env dirpath rec <> p) ->
             disk s' !! p = disk s !! p).
Proof.
  induction records as [|rec records IH]; intros n s s' res; cbn [export_loop].
  - by intros [= <- <-].
  - destruct (export_record env dirpath n rec s) as [s1 [u|e]] eqn:Hrec;
      destruct (export_record_keeps _ _ _ _ _ _ Hrec) as (Hk1 & Hd1).
    + intros (Hk2 & Hd2)%IH. split; [by auto|].
      intros p Hp. rewrite Hd2, Hd1; [done| |].
      * intros ->. by apply (Hp rec (list_elem_of_here _ _)).
      * intros rec' Hin. by apply Hp, list_elem_of_further.
    + intros [= <- <-]. split; [done|]. intros p Hp. apply Hd1.
      intros ->. by apply (Hp rec (list_elem_of_here _ _)).
Qed.

(** The paths in [exported_files] after a loop that ended: those of
    before, and the path of every record whose write succeeded. *)
Lemma export_loop_exported dirpath records : forall n s s' u p,
  export_loop env dirpath n records s = (s', Return u) ->
  p ∈ exported_files s' <->
  p ∈ exported_files s \/
  exists i rec, records !! i = Some rec /\
                is_Some (written_text env (n + i) rec) /\
                export_filename env dirpath rec = p.
Proof.
  induction records as [|rec records IH]; intros n s s' u p; cbn [export_loop].
  - intros [= <- <-]. split; [by left|].
    intros [?|(i & rec & Hl & _)]; [done|by destruct i].
  - destruct (export_record env dirpath n rec s) as [s1 [u1|e]] eqn:Hrec; [|done].
    intros Hloop. rewrite (IH _ _ _ _ _ Hloop).
    assert (p ∈ exported_files s1 <->
            p ∈ exported_files s \/
            (is_Some (written_text env n rec) /\ export_filename env dirpath rec = p))
      as ->.
    { destruct (written_text env n rec) as [txt|] eqn:Hw.
      - rewrite (export_record_written _ _ _ _ _ Hw) in Hrec.
        injection Hrec as <-. cbn [exported_files].
        rewrite elem_of_union, elem_of_singleton. split.
        + intros [->|?]; [right|by left]. by split.
        + intros [?|[_ <-]]; [by right|by left].
      - destruct (export_record_failed dirpath _ _ _ _ _ Hw Hrec) as (_ & -> & _).
        split; [by left|]. intros [?|[[? ?] _]]; done. }
    split.
    + intros [[?|[Hw Hf]]|(i & rec' & Hl & Hw & Hf)]; [by left| |].
      * right. exists 0, rec. by rewrite Nat.add_0_r.
      * right. exists (S i), rec'. rewrite Nat.add_succ_r. by split_and!.
    + intros [?|(i & rec' & Hl & Hw & Hf)]; [by left; left|].
      destruct i as [|i].
      * injection Hl as <-. rewrite Nat.add_0_r in Hw. left. right. by split.
      * right. exists i, rec'. rewrite Nat.add_succ_r in Hw. by split_and!.
Qed.

(** A failed write that the loop got past has left its line. *)
Lemma export_loop_logs_failure dirpath records : forall n s s' u i rec,
  export_loop env dirpath n records s = (s', Return u) ->
  records !! i = Some rec ->
  written_text env (n + i) rec = None ->
  Log EXCEPTION "Error writing %s to disk" [AStr (export_filename env dirpath rec)]
    ∈ etrace s'.
Proof.
  induction records as [|rec0 records IH]; intros n s s' u i rec; [done|].
  cbn [export_loop].
  destruct (export_record env dirpath n rec0 s) as [s1 [u1|e]] eqn:Hrec; [|done].
  intros Hloop Hl Hw. destruct i as [|i].
  - injection Hl as ->. rewrite Nat.add_0_r in Hw.
    apply (proj1 (export_loop_keeps _ _ _ _ _ _ Hloop)).
    destruct (export_record_failed dirpath _ _ _ _ _ Hw Hrec) as (_ & _ & -> & _).
    apply elem_of_app. right. list_mem.
  - apply (IH _ _ _ _ i rec Hloop Hl). by rewrite Nat.add_succ_r in Hw.
Qed.

(** With pairwise distinct output paths, a loop that ended has left at
    the path of each record what the write of that record left. *)
Lemma export_loop_own_path dirpath records : forall n s s' u i rec,
  export_loop env dirpath n records s = (s', Return u) ->
  NoDup (export_filename env dirpath <$> records) ->
  records !! i = Some rec ->
  disk s' !! export_filename env dirpath rec = written_text env (n + i) rec.
Proof.
  induction records as [|rec0 records IH]; intros n s s' u i rec; [done|].
  cbn [export_loop].
  destruct (export_record env dirpath n rec0 s) as [s1 [u1|e]] eqn:Hrec; [|done].
  intros Hloop Hnd Hl.
  rewrite fmap_cons in Hnd. apply NoDup_cons in Hnd as [Hfresh Hnd].
  destruct i as [|i].
  - injection Hl as ->. rewrite Nat.add_0_r.
    rewrite (proj2 (export_loop_keeps _ _ _ _ _ _ Hloop)).
    + destruct (written_text env n rec) as [txt|] eqn:Hw.
      * rewrite (export_record_written _ _ _ _ _ Hw) in Hrec.
        injection Hrec as <-. cbn [disk]. apply lookup_insert_eq.
      * by destruct (export_record_failed dirpath _ _ _ _ _ Hw Hrec) as (_ & _ & _ & ?).
    + intros rec' Hin Heq. apply Hfresh. rewrite <- Heq.
      by apply list_elem_of_fmap_2.
  - rewrite (IH _ _ _ _ i rec Hloop Hnd Hl). by rewrite Nat.add_succ_r.
Qed.

(** What export_all makes of the loop. *)
Lemma export_all_inv dirpath s s' res :
  export_all env dirpath s = (s', res) ->
  (s' = s /\ exists e, records_all env = Raise e /\ res = Raise e) \/
  exists records res',
    records_all env = Return records /\
    export_loop env dirpath 0 records s = (s', res') /\
    res = match res' with
          | Return _ => Return (elements (exported_files s'))
          | Raise e => Raise e
          end.
Proof.
  unfold export_all. destruct (records_all env) as [records|e].
  - destruct (export_loop env dirpath 0 records s) as [s1 [u|e]] eqn:Hloop;
      intros [= <- <-]; right; by eexists records, _.
  - intros [= <- <-]. left. split; [done|]. by exists e.
Qed.

(** A run of export_records either stops before the loop, with the disk
    as it was, or is a run of export_all on that disk with nothing
    exported yet. *)
Lemma export_records_inv database table dirpath dir_exists makedirs d s res :
  export_records env database table dirpath dir_exists makedirs d = (s, res) ->
  (disk s = d /\ exists e, res = Raise e) \/
  exists s0, disk s0 = d /\ exported_files s0 = ∅ /\
             export_all env dirpath s0 = (s, res).
Proof.
  unfold export_records.
  destruct (export_repository env) as [u|e];
    [|intros [= <- <-]; left; split; [done|by eexists]].
  destruct (records_count env) as [count|e];
    [|intros [= <- <-]; left; split; [done|by eexists]].
  destruct dir_exists.
  - intros Hrun. right. eexists. split; [|split; [|exact Hrun]]; done.
  - destruct makedirs as [u'|e].
    + intros Hrun. right. eexists. split; [|split; [|exact Hrun]]; done.
    + destruct e; intros [= <- <-]; left; (split; [done|by eexists]).
Qed.

End ExportFacts.

(** C6 as stated does not hold: the stored document of urn:x already
    begins with the XML declaration, and the exported file holds the
    declaration twice. *)
Lemma export_records_declaration_counterexample :
  let run := export_records (SampleExport.env_ok [SampleExport.rec_declared])
               "sqlite:////var/pycsw/cite.db" "records" "/out" true (Return tt) ∅ in
  let stored := xml_declaration +:+ "<Record>urn:x</Record>" in
  xml SampleExport.rec_declared = XmlStr stored /\
  PyStr.startswith xml_declaration stored = true /\
  disk run.1 !! "/out/urn:x.xml" = Some (xml_declaration +:+ stored) /\
  xml_declaration +:+ stored <> stored.
Proof. split_and!; [reflexivity|reflexivity|by vm_compute|by vm_compute]. Qed.

(** C6, amended. Every exported record goes to the file named after its
    sanitized identifier, with extension json when its content type
    contains json and xml otherwise; for an XML record the file holds the
    XML declaration line followed by the stored document as it is,
    whether or not the document begins with a declaration of its own;
    the pass for the record ends without an error. *)
Theorem export_record_writes_declaration_and_document (env : ExportEnv)
    dirpath n rec s str_xml :
  str_xml_of env rec = Some str_xml ->
  io_fault env n = IoOk ->
  let filename := export_filename env dirpath rec in
  let s' := (export_record env dirpath n rec s).1 in
  filename =
    os_path_join dirpath
      (secure_filename env (identifier rec) +:+ "." +:+
       (if PyStr.contains "json" (metadata_type rec) then "json" else "xml")) /\
  filename ∈ exported_files s' /\
  (PyStr.contains "json" (metadata_type rec) = false ->
   disk s' !! filename = Some (xml_declaration +:+ str_xml)) /\
  (export_record env dirpath n rec s).2 = Return tt.
Proof.
  intros Hstr Hio filename s'. subst s'.
  assert (written_text env n rec = Some (xml_declaration +:+ str_xml)) as Hw.
  { unfold written_text. by rewrite Hstr, Hio. }
  rewrite (export_record_written env dirpath _ _ s _ Hw).
  cbn [fst snd disk exported_files]. fold filename. split_and!.
  - done.
  - apply elem_of_union. left. by apply elem_of_singleton.
  - intros _. apply lookup_insert_eq.
  - done.
Qed.

Lemma export_record_writes_declaration_and_document_witness :
  disk (export_record (SampleExport.env [SampleExport.rec_ab]) "/out" 0
                      SampleExport.rec_ab (mkExport ∅ ∅ [])).1 !! "/out/ab.xml" =
  Some (xml_declaration +:+ "<Record>ab</Record>").
Proof.
  apply (export_record_writes_declaration_and_document
           (SampleExport.env [SampleExport.rec_ab]) "/out" 0 SampleExport.rec_ab
           (mkExport ∅ ∅ []) "<Record>ab</Record>"); reflexivity.
Defined.

(** C7 fails on the code.  The identifiers ab and ab/ are sanitized to
    the same file name.  The first record is written and its path added
    to the collection; the write of the second fails, the handler logs
    the error and removes the file at that path, which is the file of
    the first record: the run returns a collection that holds the path
    of the failed write, and no file is left at it. *)
Theorem export_records_returns_removed_path :
  let records := [SampleExport.rec_ab; SampleExport.rec_ab_slash] in
  let env := SampleExport.env records in
  let run := export_records env "sqlite:////var/pycsw/cite.db" "records" "/out"
               true (Return tt) ∅ in
  written_text env 0 SampleExport.rec_ab =
    Some (xml_declaration +:+ "<Record>ab</Record>") /\
  written_text env 1 SampleExport.rec_ab_slash = None /\
  export_filename env "/out" SampleExport.rec_ab = "/out/ab.xml" /\
  export_filename env "/out" SampleExport.rec_ab_slash = "/out/ab.xml" /\
  Log EXCEPTION "Error writing %s to disk" [AStr "/out/ab.xml"] ∈ etrace run.1 /\
  run.2 = Return ["/out/ab.xml"] /\
  disk run.1 !! "/out/ab.xml" = None.
Proof.
  split_and!; try by vm_compute.
  vm_compute etrace. list_mem.
Qed.
(* --------------------------------------------------------------------- *)
(* refresh_harvested_records                                              *)
(* --------------------------------------------------------------------- *)

Lemma harvest_calls_app tr1 tr2 :
  harvest_calls (tr1 ++ tr2) = harvest_calls tr1 ++ harvest_calls tr2.
Proof. apply omap_app. Qed.

Lemma harvest_calls_refresh_loop (env : HarvestEnv) records : forall n,
  harvest_calls (refresh_loop env n records) =
  (fun rec => (source rec, harvest_schema (schema rec))) <$> records.
Proof.
  induction records as [|rec records IH]; intros n; [done|].
  cbn [refresh_loop]. rewrite harvest_calls_app, IH, fmap_cons. f_equal.
  unfold refresh_record. by destruct (csw_harvest env n _ _).
Qed.

(** C8. When the query for the records whose mdsource is not 'local'
    counts none, refresh_harvested_records logs that there is nothing to
    do and returns: no CSW client is constructed and nothing is harvested. *)
Theorem refresh_without_harvested_records_is_noop (env : HarvestEnv)
    url count records :
  harvest_repository env = Return tt ->
  repo_query env "mdsource != 'local'" = Return (count, records) ->
  count_int env count = Return 0%Z ->
  refresh_harvested_records env url =
    ([Log INFO "No harvested records" []], Return tt) /\
  filter (fun ev => is_remote ev = true) (refresh_harvested_records env url).1 = [] /\
  harvest_calls (refresh_harvested_records env url).1 = [].
Proof.
  intros Hrepo Hq Hint. unfold refresh_harvested_records.
  rewrite Hrepo, Hq, Hint. by split_and!.
Qed.

Lemma refresh_without_harvested_records_is_noop_witness :
  refresh_harvested_records
    (SampleHarvest.env [Sample.rec_a; Sample.rec_c]) "https://example.org/csw" =
  ([Log INFO "No harvested records" []], Return tt).
Proof.
  apply (refresh_without_harvested_records_is_noop
           (SampleHarvest.env [Sample.rec_a; Sample.rec_c])
           "https://example.org/csw" "0" []); reflexivity.
Defined.

(** C9. When there are harvested records and the CSW client is set up,
    csw.harvest is called once per record returned by the query, in
    order, with the record's source as it is and with its schema, except
    that the schema http://www.isotc211.org/2005/gmd is sent as
    http://www.isotc211.org/schemas/2005/gmd/; a harvest that fails does
    not stop the run. *)
Theorem refresh_harvests_source_and_schema (env : HarvestEnv)
    url count n records :
  harvest_repository env = Return tt ->
  repo_query env "mdsource != 'local'" = Return (count, records) ->
  count_int env count = Return n ->
  (0 < n)%Z ->
  csw_connect env url = Return tt ->
  harvest_calls (refresh_harvested_records env url).1 =
    (fun rec => (source rec, harvest_schema (schema rec))) <$> records /\
  (refresh_harvested_records env url).2 = Return tt /\
  harvest_schema "http://www.isotc211.org/2005/gmd" =
    "http://www.isotc211.org/schemas/2005/gmd/" /\
  (forall sch, sch <> "http://www.isotc211.org/2005/gmd" -> harvest_schema sch = sch).
Proof.
  intros Hrepo Hq Hint Hcount Hconn. unfold refresh_harvested_records.
  rewrite Hrepo, Hq, Hint.
  apply Z.ltb_lt in Hcount. rewrite Hcount, Hconn. cbn [fst snd]. split_and!.
  - rewrite !harvest_calls_app. by rewrite harvest_calls_refresh_loop.
  - done.
  - done.
  - intros sch Hne. unfold harvest_schema.
    by destruct (String.eqb_spec sch "http://www.isotc211.org/2005/gmd").
Qed.

Lemma refresh_harvests_source_and_schema_witness :
  harvest_calls
    (refresh_harvested_records
       (SampleHarvest.env [Sample.rec_a; SampleHarvest.rec_iso; SampleHarvest.rec_dc])
       "https://example.org/csw").1 =
  [("https://example.org/csw/iso.xml", "http://www.isotc211.org/schemas/2005/gmd/");
   ("https://example.org/csw/dc.xml", "http://www.opengis.net/cat/csw/2.0.2")].
Proof.
  apply (refresh_harvests_source_and_schema
           (SampleHarvest.env [Sample.rec_a; SampleHarvest.rec_iso; SampleHarvest.rec_dc])
           "https://example.org/csw" "2" 2
           [SampleHarvest.rec_iso; SampleHarvest.rec_dc]); reflexivity.
Defined.

(* --------------------------------------------------------------------- *)
(* load_records: which errors leave the run, which files come back        *)
(* --------------------------------------------------------------------- *)

Section LoadEscapes.

Context {Repo : Type} (env : LoadEnv Repo).

Lemma insert_record_raises fu f rec (s s' : load_state Repo) e :
  insert_record env fu f rec s = (s', Raise e) ->
  fu = true /\ exists r r', repo_update env r rec = (r', Raise e).
Proof.
  destruct (repo_insert env (repo s) rec "local" (get_today_and_now env))
    as [r [u|err]] eqn:Hins.
  - by rewrite (insert_record_inserted env _ _ _ _ _ _ Hins).
  - destruct fu; [|by rewrite (insert_record_skipped env _ _ _ _ _ Hins)].
    destruct (repo_update env r rec) as [r' [u|e']] eqn:Hupd.
    + by rewrite (insert_record_updated env _ _ _ _ _ _ _ Hins Hupd).
    + rewrite (insert_record_update_raised env _ _ _ _ _ _ _ Hins Hupd).
      intros [= _ <-]. eauto.
Qed.

Lemma insert_records_raises fu f recs : forall (s s' : load_state Repo) e,
  insert_records env fu f recs s = (s', Raise e) ->
  fu = true /\ exists rec r r', rec ∈ recs /\ repo_update env r rec = (r', Raise e).
Proof.
  induction recs as [|rec recs IH]; intros s s' e; cbn [insert_records]; [done|].
  destruct (insert_record env fu f rec s) as [s1 [u|e1]] eqn:Hrec.
  - intros (-> & rec' & r & r' & Hin & Hupd)%IH. split; [done|].
    exists rec', r, r'. split; [by apply list_elem_of_further|done].
  - intros [= <- <-]. destruct (insert_record_raises _ _ _ _ _ _ Hrec)
      as (-> & r & r' & Hupd).
    split; [done|]. exists rec, r, r'. split; [apply list_elem_of_here|done].
Qed.

Lemma process_file_raises fu total counter f (s s' : load_state Repo) e :
  process_file env fu total counter f s = (s', Raise e) ->
  (exists m, json_load env f = Raise (JSONDecodeError m) /\
             etree_parse env f = Raise e) \/
  (fu = true /\ exists rec r r',
     extracted env f rec /\ repo_update env r rec = (r', Raise e)).
Proof.
  intros (rest & _ & Hrest)%process_file_trace.
  destruct (read_document env f) as [d|ev|e0] eqn:Hread.
  - destruct (parse_record env d (repo s)) as [recs|e0] eqn:Hparse.
    + destruct Hrest as (s0 & evs & _ & Hins & _).
      apply insert_records_raises in Hins as (-> & rec & r & r' & Hin & Hupd).
      right. split; [done|]. exists rec, r, r'. split; [|done].
      by eexists d, _, recs.
    + by destruct Hrest as (_ & ? & _).
  - by destruct Hrest as (_ & ? & _).
  - destruct Hrest as (_ & [= <-] & _). left. unfold read_document in Hread.
    destruct (json_load env f) as [?|err]; [done|].
    destruct err as [m| | | | |]; cbn in Hread;
      [destruct (etree_parse env f); [done|injection Hread as ->; by exists m]|done..].
Qed.

Lemma process_files_raises fu total files : forall counter (s s' : load_state Repo) e,
  process_files env fu total counter files s = (s', Raise e) ->
  exists f, f ∈ files /\
    ((exists m, json_load env f = Raise (JSONDecodeError m) /\
                etree_parse env f = Raise e) \/
     (fu = true /\ exists rec r r',
        extracted env f rec /\ repo_update env r rec = (r', Raise e))).
Proof.
  induction files as [|f files IH]; intros counter s s' e; cbn [process_files]; [done|].
  destruct (process_file env fu total (S counter) f s) as [s1 [u|e1]] eqn:Hfile.
  - intros (g & Hin & Hg)%IH. exists g. split; [by apply list_elem_of_further|done].
  - intros [= <- <-]. exists f. split; [apply list_elem_of_here|].
    by eapply process_file_raises.
Qed.

Lemma calls_extracted_app tr evs :
  calls_extracted env tr -> calls_extracted env evs -> calls_extracted env (tr ++ evs).
Proof. intros H1 H2 ev f rec res [?|?]%elem_of_app; eauto. Qed.

Lemma insert_record_calls fu f rec (s s' : load_state Repo) res :
  extracted env f rec ->
  insert_record env fu f rec s = (s', res) ->
  calls_extracted env (trace s) -> calls_extracted env (trace s').
Proof.
  intros Hex Hrun Htr.
  assert (forall evs, trace s' = trace s ++ evs ->
            (forall ev g rec' res', ev ∈ evs ->
               ev = RepoInsert g rec' res' \/ ev = RepoUpdate g rec' res' ->
               g = f /\ rec' = rec) ->
            calls_extracted env (trace s')) as Hstep.
  { intros evs -> Hevs. apply calls_extracted_app; [done|].
    intros ev g rec' res' Hin Hev. by destruct (Hevs _ _ _ _ Hin Hev) as [-> ->]. }
  destruct (repo_insert env (repo s) rec "local" (get_today_and_now env))
    as [r [u|err]] eqn:Hins.
  - rewrite (insert_record_inserted env _ _ _ _ _ _ Hins) in Hrun.
    injection Hrun as <- _. eapply Hstep; [done|].
    intros ev g rec' res' Hin Hev. rewrite !elem_of_cons in Hin.
    destruct Hin as [->|[->|[->|Hin]]]; [|
      |by destruct Hev|by inversion Hin].
    + by destruct Hev.
    + destruct Hev as [[= <- <- _]|?]; done.
  - destruct fu.
    + destruct (repo_update env r rec) as [r' [u|e']] eqn:Hupd.
      * rewrite (insert_record_updated env _ _ _ _ _ _ _ Hins Hupd) in Hrun.
        injection Hrun as <- _. eapply Hstep; [done|].
        intros ev g rec' res' Hin Hev. rewrite !elem_of_cons in Hin.
        destruct Hin as [->|[->|[->|[->|[->|Hin]]]]]; [| | | | |by inversion Hin];
          destruct Hev as [Hev|Hev]; try done; by injection Hev as <- <- _.
      * rewrite (insert_record_update_raised env _ _ _ _ _ _ _ Hins Hupd) in Hrun.
        injection Hrun as <- _. eapply Hstep; [done|].
        intros ev g rec' res' Hin Hev. rewrite !elem_of_cons in Hin.
        destruct Hin as [->|[->|[->|[->|Hin]]]]; [| | | |by inversion Hin];
          destruct Hev as [Hev|Hev]; try done; by injection Hev as <- <- _.
    + rewrite (insert_record_skipped env _ _ _ _ _ Hins) in Hrun.
      injection Hrun as <- _. eapply Hstep; [done|].
      intros ev g rec' res' Hin Hev. rewrite !elem_of_cons in Hin.
      destruct Hin as [->|[->|[->|Hin]]]; [| | |by inversion Hin];
        destruct Hev as [Hev|Hev]; try done;
        [by injection Hev as <- <- _|by destruct err as [| |k [|a0 args]| | |]..].
Qed.

Lemma insert_records_calls fu f recs : forall (s s' : load_state Repo) res,
  (forall rec, rec ∈ recs -> extracted env f rec) ->
  insert_records env fu f recs s = (s', res) ->
  calls_extracted env (trace s) -> calls_extracted env (trace s').
Proof.
  induction recs as [|rec recs IH]; intros s s' res Hex; cbn [insert_records].
  - by intros [= <- _].
  - destruct (insert_record env fu f rec s) as [s1 [u|e]] eqn:Hrec.
    + intros Hrun Htr. eapply IH; [|exact Hrun|].
      * intros rec' Hin. by apply Hex, list_elem_of_further.
      * eapply insert_record_calls; [|exact Hrec|done]. apply Hex, list_elem_of_here.
    + intros [= <- _] Htr. eapply insert_record_calls; [|exact Hrec|done].
      apply Hex, list_elem_of_here.
Qed.

Lemma calls_extracted_quiet tr evs :
  Forall (fun ev => repo_file ev = None) evs ->
  calls_extracted env tr -> calls_extracted env (tr ++ evs).
Proof.
  rewrite Forall_forall. intros Hq Htr. apply calls_extracted_app; [done|].
  intros ev f rec res Hin [->| ->]; by specialize (Hq _ Hin).
Qed.

Lemma process_file_calls fu total counter f (s s' : load_state Repo) res :
  process_file env fu total counter f s = (s', res) ->
  calls_extracted env (trace s) -> calls_extracted env (trace s').
Proof.
  intros (rest & Ht & Hrest)%process_file_trace Htr.
  assert (Forall (fun ev => repo_file ev = None)
            (Log INFO "Processing file %s (%d of %d)"
                 [AStr f; AInt counter; AInt total] :: read_events env f)) as Hhead.
  { constructor; [done|]. eapply Forall_impl; [apply read_events_quiet|].
    by intros ev (? & _). }
  destruct (read_document env f) as [d|ev|e] eqn:Hread.
  - destruct (parse_record env d (repo s)) as [recs|e] eqn:Hparse.
    + destruct Hrest as (s0 & evs & -> & Hins & Ht0 & _).
      eapply insert_records_calls; [|exact Hins|].
      * intros rec Hin. by eexists d, _, recs.
      * rewrite Ht0 in Ht. change (?a :: ?l ++ ?b :: evs)
          with ((a :: l) ++ [b] ++ evs) in Ht.
        rewrite !app_assoc in Ht. apply app_inv_tail in Ht as ->.
        rewrite <- app_assoc. apply calls_extracted_quiet; [|done].
        apply Forall_app. split; [done|by repeat constructor].
    + destruct Hrest as (-> & _). rewrite Ht.
      change (?a :: ?l ++ ?r) with ((a :: l) ++ r).
      apply calls_extracted_quiet; [|done].
      apply Forall_app. split; [done|by repeat constructor].
  - destruct Hrest as (-> & _). rewrite Ht.
    destruct (read_document_continue _ _ _ Hread) as [lvl ->].
    change (?a :: ?l ++ ?r) with ((a :: l) ++ r).
    apply calls_extracted_quiet; [|done].
    apply Forall_app. split; [done|by repeat constructor].
  - destruct Hrest as (-> & _). rewrite Ht, app_nil_r.
    by apply calls_extracted_quiet.
Qed.

Lemma process_files_calls fu total files : forall counter (s s' : load_state Repo) res,
  process_files env fu total counter files s = (s', res) ->
  calls_extracted env (trace s) -> calls_extracted env (trace s').
Proof.
  induction files as [|f files IH]; intros counter s s' res; cbn [process_files].
  - by intros [= <- _].
  - destruct (process_file env fu total (S counter) f s) as [s1 [u|e]] eqn:Hfile.
    + intros Hrun Htr. eapply IH; [exact Hrun|]. by eapply process_file_calls.
    + intros [= <- _] Htr. by eapply process_file_calls.
Qed.

End LoadEscapes.

(** X1. An exception leaves load_records only in three ways: the
    constructor of the repository raised it, before anything was scanned
    or read; etree.parse raised it for a candidate file whose JSON
    decoding had failed; or, under force_update, repo.update raised it
    for an extracted record.  Errors of open and json.load other than
    JSONDecodeError, of metadata.parse_record and of repo.insert never
    leave the run. *)
Theorem load_records_escaping_errors {Repo} (env : LoadEnv Repo)
    xml_dirpath fs recursive force_update run e :
  load_records env xml_dirpath fs recursive force_update = (run, Raise e) ->
  (repository env = Raise e /\ run = None) \/
  exists recfile,
    recfile ∈ scan_files xml_dirpath fs recursive /\
    ((exists m, json_load env recfile = Raise (JSONDecodeError m) /\
                etree_parse env recfile = Raise e) \/
     (force_update = true /\
      exists rec r1 r2, extracted env recfile rec /\
                        repo_update env r1 rec = (r2, Raise e))).
Proof.
  unfold load_records. destruct (repository env) as [r|e0];
    [|intros [= <- <-]; by left].
  unfold load_file_list.
  destruct (process_files _ _ _ _ _ _) as [s1 [u|e1]] eqn:Hrun; [done|].
  intros [= <- <-]. right.
  destruct (process_files_raises env _ _ _ _ _ _ _ Hrun) as (f & Hin & Hf).
  exists f. split; [by apply sorted_elem_of|done].
Qed.

Lemma load_records_escaping_errors_witness :
  (repository Sample.env =
     Raise (XMLSyntaxError "Premature end of data in tag Record line 1") /\
   (load_records Sample.env "/data" (plain_view (Some Sample.data)) false false).1
     = None) \/
  exists recfile,
    recfile ∈ scan_files "/data" (plain_view (Some Sample.data)) false /\
    ((exists m, json_load Sample.env recfile = Raise (JSONDecodeError m) /\
                etree_parse Sample.env recfile =
                Raise (XMLSyntaxError "Premature end of data in tag Record line 1")) \/
     (false = true /\
      exists rec r1 r2, extracted Sample.env recfile rec /\
                        repo_update Sample.env r1 rec =
                        (r2, Raise (XMLSyntaxError
                                      "Premature end of data in tag Record line 1")))).
Proof.
  apply (load_records_escaping_errors Sample.env "/data"
           (plain_view (Some Sample.data)) false false).
  vm_compute. reflexivity.
Defined.

(** X2. Every file that load_records returns was read as a document,
    metadata.parse_record extracted records from it, and one of those
    records was stored by a repository call that returned; a file that
    could not be read or parsed is never returned. *)
Theorem load_records_returns_parsed_files {Repo} (env : LoadEnv Repo)
    xml_dirpath fs recursive force_update s files :
  load_records env xml_dirpath fs recursive force_update = (Some s, Return files) ->
  forall recfile, recfile ∈ files ->
  exists rec,
    extracted env recfile rec /\
    (RepoInsert recfile rec (Return tt) ∈ trace s \/
     RepoUpdate recfile rec (Return tt) ∈ trace s).
Proof.
  intros (r & _ & Hrun)%load_records_run f Hin.
  destruct (load_file_list_segment env _ _ _ _ _ Hrun) as ([Hm _ _ _] & _ & Hret).
  destruct (Hret files eq_refl) as [-> _].
  apply elem_of_elements, Hm in Hin as [Hin|(ev & Hev & rec & Hst)];
    [by apply not_elem_of_empty in Hin|].
  exists rec. split.
  - unfold load_file_list in Hrun.
    destruct (process_files _ _ _ _ _ _) as [s1 [u|e1]] eqn:Hfiles; [|done].
    injection Hrun as <- _.
    assert (calls_extracted env (trace s1)) as Hcalls.
    { eapply process_files_calls; [exact Hfiles|]. intros ev' ? ? ? Hnil. by inversion Hnil. }
    apply (Hcalls ev f rec (Return tt) Hev). by destruct Hst as [->| ->]; [left|right].
  - by destruct Hst as [<-|<-]; [left|right].
Qed.

Lemma load_records_returns_parsed_files_witness :
  exists rec,
    extracted Sample.env "/data/two.xml" rec /\
    (RepoInsert "/data/two.xml" rec (Return tt)
       ∈ trace_of (load_records Sample.env "/data" (plain_view (Some Sample.good))
                                false false).1 \/
     RepoUpdate "/data/two.xml" rec (Return tt)
       ∈ trace_of (load_records Sample.env "/data" (plain_view (Some Sample.good))
                                false false).1).
Proof.
  destruct (load_records Sample.env "/data" (plain_view (Some Sample.good))
                         false false) as [[s|] res] eqn:Hrun;
    [|by vm_compute in Hrun].
  cbn [fst trace_of].
  apply (load_records_returns_parsed_files
           Sample.env "/data" (plain_view (Some Sample.good)) false false s
           ["/data/c.xml"; "/data/a.xml"; "/data/two.xml"]).
  - rewrite Hrun. f_equal. change res with (Some s, res).2. rewrite <- Hrun.
    vm_compute. reflexivity.
  - list_mem.
Defined.
(* --------------------------------------------------------------------- *)
(* The scanner: extensions and duplicates                                 *)
(* --------------------------------------------------------------------- *)

Lemma endswith_app suffix a b :
  PyStr.endswith suffix b = true -> PyStr.endswith suffix (a +:+ b) = true.
Proof.
  intros Hb. induction a as [|c a IH]; [done|].
  rewrite append_cons. cbn [PyStr.endswith].
  by destruct (String.eqb _ suffix).
Qed.

Lemma endswith_os_path_join suffix root name :
  PyStr.endswith suffix name = true ->
  PyStr.endswith suffix (os_path_join root name) = true.
Proof.
  intros Hn. unfold os_path_join.
  destruct (PyStr.startswith "/" name); [done|].
  destruct (_ || _); [by apply endswith_app|].
  by do 2 apply endswith_app.
Qed.

(** X4. Unless xml_dirpath is a file, every candidate ends in .xml, or,
    in non-recursive mode only, in .json: a file with another extension
    is loaded only when it is named directly. *)
Theorem scan_files_extensions xml_dirpath fs recursive p :
  target_of xml_dirpath fs <> Some File ->
  p ∈ scan_files xml_dirpath fs recursive ->
  PyStr.endswith ".xml" p = true \/
  (recursive = false /\ PyStr.endswith ".json" p = true).
Proof.
  intros Ht. destruct recursive.
  - destruct (target_of xml_dirpath fs) as [[|es]|] eqn:Htarget; [done| |].
    + rewrite (scan_files_recursive _ _ (Dir es)) by done.
      intros (root & name & _ & Hx & ->)%walk_xml_sound. left.
      by apply endswith_os_path_join.
    + unfold scan_files. rewrite Htarget. intros Hin. by inversion Hin.
  - unfold scan_files.
    assert (os_path_isfile (target_of xml_dirpath fs) = false) as ->.
    { by destruct (target_of xml_dirpath fs) as [[|es]|]. }
    rewrite elem_of_app, !glob_star by done.
    intros [(dirname & es & name & child & _ & _ & [_ Hx] & ->)|
            (dirname & es & name & child & _ & _ & [_ Hx] & ->)];
      [left|right; split; [done|]]; by apply endswith_os_path_join.
Qed.

Lemma scan_files_extensions_witness :
  PyStr.endswith ".xml" "/data/old/z.xml" = true \/
  (true = false /\ PyStr.endswith ".json" "/data/old/z.xml" = true).
Proof.
  apply (scan_files_extensions "/data" (plain_view (Some Sample.good))
           true "/data/old/z.xml").
  - done.
  - vm_compute. list_mem.
Defined.

Lemma append_inj_r a b c : a +:+ b = a +:+ c -> b = c.
Proof.
  induction a as [|x a IH]; [done|]. rewrite !append_cons. intros [= H]. auto.
Qed.

Lemma os_path_join_inj root n1 n2 :
  PyStr.startswith "/" n1 = false -> PyStr.startswith "/" n2 = false ->
  os_path_join root n1 = os_path_join root n2 -> n1 = n2.
Proof.
  unfold os_path_join. intros -> ->.
  destruct (_ || _); [apply append_inj_r|].
  intros H%append_inj_r. by apply append_inj_r in H.
Qed.

(** X5. In non-recursive mode, when glob lists one directory, the
    directory that a path without metacharacters designates, and its
    entries have distinct names (none starting with a slash), the
    candidate list has no duplicates: no file is matched by both
    patterns, so each file is processed once. *)
Theorem scan_files_flat_NoDup xml_dirpath fs dirname es :
  glob_listings xml_dirpath fs = [(dirname, Some (Dir es))] ->
  target_of xml_dirpath fs <> Some File ->
  NoDup (fst <$> es) ->
  (forall name, name ∈ fst <$> es -> PyStr.startswith "/" name = false) ->
  NoDup (scan_files xml_dirpath fs false).
Proof.
  intros Hlist Ht Hnd Hname. unfold scan_files, glob.
  assert (os_path_isfile (target_of xml_dirpath fs) = false) as ->.
  { by destruct (target_of xml_dirpath fs) as [[|es']|]. }
  rewrite Hlist. cbn [mbind list_bind]. rewrite !app_nil_r. unfold glob1.
  assert (forall pat, NoDup (os_path_join dirname <$>
            filter (fun name => (if ishidden pat then true else negb (ishidden name))
                                && fnmatch pat name = true) (fst <$> es))) as Hone.
  { intros pat. apply NoDup_fmap_2_strong; [|by apply NoDup_filter].
    intros n1 n2 [_ H1]%list_elem_of_filter [_ H2]%list_elem_of_filter.
    apply os_path_join_inj; auto. }
  apply NoDup_app. split_and!; [apply Hone| |apply Hone].
  intros p (n1 & -> & [Hk1 Hin1]%list_elem_of_filter)%list_elem_of_fmap
           (n2 & Heq & [Hk2 Hin2]%list_elem_of_filter)%list_elem_of_fmap.
  apply os_path_join_inj in Heq; auto. subst n2.
  apply andb_true_iff in Hk1 as [_ Hx], Hk2 as [_ Hj].
  rewrite fnmatch_star in Hx, Hj by done.
  by rewrite (endswith_xml_not_json _ Hx) in Hj.
Qed.

Lemma scan_files_flat_NoDup_witness :
  NoDup (scan_files "/data" (plain_view (Some Sample.good)) false).
Proof.
  apply (scan_files_flat_NoDup "/data" (plain_view (Some Sample.good)) "/data"
           [("two.xml", File); ("c.xml", File); ("a.xml", File);
            ("old", Dir [("z.xml", File); ("z.json", File)]); ("m.json", File)]).
  - reflexivity.
  - done.
  - vm_compute. repeat (apply NoDup_cons; split; [intros H; list_not_mem H|]).
    apply NoDup_nil. done.
  - intros name Hin. vm_compute in Hin.
    repeat (apply elem_of_cons in Hin as [->|Hin]; [reflexivity|]). by inversion Hin.
Defined.
(* --------------------------------------------------------------------- *)
(* export_records: what is on the disk afterwards                         *)
(* --------------------------------------------------------------------- *)

(** X6. export_records changes the disk only at the output paths of the
    records: a file at any other path is the same before and after,
    whether the run returns, raises in the loop or stops before it. *)
Theorem export_records_leaves_other_files (env : ExportEnv)
    database table dirpath dir_exists makedirs d p :
  (forall records rec,
     records_all env = Return records -> rec ∈ records ->
     export_filename env dirpath rec <> p) ->
  disk (export_records env database table dirpath dir_exists makedirs d).1 !! p
  = d !! p.
Proof.
  intros Hp.
  destruct (export_records env database table dirpath dir_exists makedirs d)
    as [s res] eqn:Hrun. cbn [fst].
  apply export_records_inv in Hrun as [[-> _]|(s0 & <- & _ & Hall)]; [done|].
  apply export_all_inv in Hall
    as [[-> _]|(records & res' & Hrecs & Hloop & _)]; [done|].
  apply (proj2 (export_loop_keeps _ _ _ _ _ _ _ Hloop)). intros rec Hin. by apply (Hp records rec).
Qed.

Lemma export_records_leaves_other_files_witness :
  disk (export_records
          (SampleExport.env [SampleExport.rec_ab; SampleExport.rec_ab_slash])
          "sqlite:////var/pycsw/cite.db" "records" "/out" true (Return tt)
          {[ "/out/README" := "keep" ]}).1 !! "/out/README" =
  ({[ "/out/README" := "keep" ]} : gmap string string) !! "/out/README".
Proof.
  apply (export_records_leaves_other_files
           (SampleExport.env [SampleExport.rec_ab; SampleExport.rec_ab_slash])).
  intros records rec [= <-] Hin.
  repeat (apply elem_of_cons in Hin as [->|Hin]; [by vm_compute|]). by inversion Hin.
Defined.

(** X7. When export_records returns and the records have pairwise
    distinct output paths, the disk holds at the path of each record
    exactly what its write left: the declaration line and the document
    when the write succeeded, and no file when it failed, so that a file
    that was at that path before a failed write is gone. *)
Theorem export_records_disk_with_distinct_paths (env : ExportEnv)
    database table dirpath dir_exists makedirs d s files records i rec :
  export_records env database table dirpath dir_exists makedirs d =
    (s, Return files) ->
  records_all env = Return records ->
  NoDup (export_filename env dirpath <$> records) ->
  records !! i = Some rec ->
  disk s !! export_filename env dirpath rec = written_text env i rec.
Proof.
  intros Hrun Hrecs Hnd Hl.
  apply export_records_inv in Hrun as [[_ [e ?]]|(s0 & _ & _ & Hall)]; [done|].
  apply export_all_inv in Hall
    as [[_ (e & _ & ?)]|(records' & res' & Hrecs' & Hloop & Hres)]; [done|].
  rewrite Hrecs in Hrecs'. injection Hrecs' as <-.
  destruct res' as [u|e]; [|done].
  by apply (export_loop_own_path env dirpath records 0 _ _ _ i rec Hloop).
Qed.

Lemma export_records_disk_with_distinct_paths_witness :
  disk (export_records
          (SampleExport.env [SampleExport.rec_declared; SampleExport.rec_ab_slash])
          "sqlite:////var/pycsw/cite.db" "records" "/out" true (Return tt)
          {[ "/out/ab.xml" := "<Record>an older export</Record>" ]}).1
    !! "/out/ab.xml" = None.
Proof.
  destruct (export_records
              (SampleExport.env [SampleExport.rec_declared; SampleExport.rec_ab_slash])
              "sqlite:////var/pycsw/cite.db" "records" "/out" true (Return tt)
              {[ "/out/ab.xml" := "<Record>an older export</Record>" ]})
    as [s [files|e]] eqn:Hrun; [|by vm_compute in Hrun].
  cbn [fst].
  apply (export_records_disk_with_distinct_paths _ _ _ _ _ _ _ _ _
           [SampleExport.rec_declared; SampleExport.rec_ab_slash] 1
           SampleExport.rec_ab_slash Hrun).
  - reflexivity.
  - vm_compute. repeat (apply NoDup_cons; split; [intros H; list_not_mem H|]).
    apply NoDup_nil. done.
  - reflexivity.
Defined.

Lemma startswith_app p s : PyStr.startswith p (p +:+ s) = true.
Proof.
  induction p as [|c p IH]; [done|].
  rewrite append_cons. cbn [PyStr.startswith]. by rewrite Ascii.eqb_refl.
Qed.

(** X8. The record's content type decides the extension only: the file
    written for a record whose content type contains json is named
    *.json and begins with the XML declaration line, followed by the
    stored document. *)
Theorem export_record_json_gets_declaration (env : ExportEnv)
    dirpath n rec s str_xml :
  str_xml_of env rec = Some str_xml ->
  io_fault env n = IoOk ->
  PyStr.contains "json" (metadata_type rec) = true ->
  let filename := export_filename env dirpath rec in
  PyStr.endswith ".json" filename = true /\
  disk (export_record env dirpath n rec s).1 !! filename =
    Some (xml_declaration +:+ str_xml) /\
  PyStr.startswith xml_declaration (xml_declaration +:+ str_xml) = true.
Proof.
  intros Hstr Hio Hjson filename. split_and!.
  - unfold filename, export_filename, extension_of. rewrite Hjson.
    apply endswith_os_path_join, endswith_app. reflexivity.
  - unfold filename.
    rewrite (export_record_written env dirpath n rec s (xml_declaration +:+ str_xml)).
    + cbn [fst disk]. apply lookup_insert_eq.
    + unfold written_text. by rewrite Hstr, Hio.
  - apply startswith_app.
Qed.

Lemma export_record_json_gets_declaration_witness :
  PyStr.endswith ".json" "/out/urn:j.json" = true /\
  disk (export_record (SampleExport.env_ok [SampleExport.rec_json]) "/out" 0
                      SampleExport.rec_json (mkExport ∅ ∅ [])).1
    !! "/out/urn:j.json" = Some (xml_declaration +:+ "{}") /\
  PyStr.startswith xml_declaration (xml_declaration +:+ "{}") = true.
Proof.
  apply (export_record_json_gets_declaration
           (SampleExport.env_ok [SampleExport.rec_json]) "/out" 0
           SampleExport.rec_json (mkExport ∅ ∅ []) "{}"); reflexivity.
Defined.

(** X20. When export_records returns, the returned collection has no
    duplicates and holds exactly the paths at which the write of some
    record succeeded; every failed write has left its error line, and
    the path of a failed write is absent from the collection unless the
    write of another record to the same path succeeded. *)
Theorem export_records_returned_collection (env : ExportEnv)
    database table dirpath dir_exists makedirs d s files records :
  export_records env database table dirpath dir_exists makedirs d =
    (s, Return files) ->
  records_all env = Return records ->
  NoDup files /\
  (forall p, p ∈ files <->
     exists i rec, records !! i = Some rec /\
                   is_Some (written_text env i rec) /\
                   export_filename env dirpath rec = p) /\
  (forall i rec,
     records !! i = Some rec -> written_text env i rec = None ->
     Log EXCEPTION "Error writing %s to disk"
         [AStr (export_filename env dirpath rec)] ∈ etrace s /\
     ((forall j rec', records !! j = Some rec' ->
                      is_Some (written_text env j rec') ->
                      export_filename env dirpath rec' <> export_filename env dirpath rec) ->
      export_filename env dirpath rec ∉ files)).
Proof.
  intros Hrun Hrecs.
  apply export_records_inv in Hrun as [[_ [e ?]]|(s0 & _ & Hempty & Hall)]; [done|].
  apply export_all_inv in Hall
    as [[_ (e & _ & ?)]|(records' & res' & Hrecs' & Hloop & Hres)]; [done|].
  rewrite Hrecs in Hrecs'. injection Hrecs' as <-.
  destruct res' as [u|e]; [|done]. injection Hres as ->.
  assert (forall p, p ∈ elements (exported_files s) <->
             exists i rec, records !! i = Some rec /\
                           is_Some (written_text env i rec) /\
                           export_filename env dirpath rec = p) as Hchar.
  { intros p. rewrite elem_of_elements.
    rewrite (export_loop_exported env dirpath records 0 s0 s u p Hloop), Hempty.
    split; [|by right]. intros [Hin|?]; [|done]. by apply not_elem_of_empty in Hin. }
  split_and!; [apply NoDup_elements|done|].
  intros i rec Hl Hw. split.
  - by apply (export_loop_logs_failure env dirpath records 0 s0 s u i rec).
  - intros Hother (j & rec' & Hl' & Hw' & Hf)%Hchar. by apply (Hother j rec').
Qed.

Lemma export_records_returned_collection_witness :
  "/out/ab.xml" ∉
    match (export_records
             (SampleExport.env [SampleExport.rec_declared; SampleExport.rec_ab_slash])
             "sqlite:////var/pycsw/cite.db" "records" "/out" false (Return tt) ∅).2
    with Return files => files | Raise _ => [] end.
Proof.
  destruct (export_records
              (SampleExport.env [SampleExport.rec_declared; SampleExport.rec_ab_slash])
              "sqlite:////var/pycsw/cite.db" "records" "/out" false (Return tt) ∅)
    as [s [files|e]] eqn:Hrun; [|by vm_compute in Hrun].
  cbn [snd].
  destruct (export_records_returned_collection _ _ _ _ _ _ _ _ _
              [SampleExport.rec_declared; SampleExport.rec_ab_slash] Hrun eq_refl)
    as (_ & _ & Hfail).
  apply (Hfail 1 SampleExport.rec_ab_slash); [reflexivity|reflexivity|].
  intros [|[|j]] rec'; [intros [= <-] _; by vm_compute|intros [= <-] [txt Htxt]; done|done].
Defined.

(** X21. os.remove is called in the except clause, outside any try: when
    a write fails after the file was created and os.remove raises, the
    error leaves the loop, the later records are not exported, and the
    partial file stays on the disk. *)
Theorem export_loop_remove_error_leaves_loop (env : ExportEnv)
    dirpath n rec rest s str_xml written e0 e :
  str_xml_of env rec = Some str_xml ->
  io_fault env n = WriteFails written e0 ->
  remove_fault env n = Some e ->
  let run := export_loop env dirpath n (rec :: rest) s in
  run.2 = Raise e /\
  exported_files run.1 = exported_files s /\
  disk run.1 !! export_filename env dirpath rec =
    Some (String.substring 0 written (xml_declaration +:+ str_xml)).
Proof.
  intros Hstr Hio Hrm. cbn [export_loop].
  unfold export_record, write_failed, os_path_exists. rewrite Hstr, Hio.
  cbn [elog set_disk disk exported_files etrace].
  rewrite lookup_insert_eq, Hrm.
  rewrite bool_decide_eq_true_2 by by eexists.
  cbn [orb fst snd disk exported_files]. split_and!; [done|done|].
  apply lookup_insert_eq.
Qed.

Lemma export_loop_remove_error_leaves_loop_witness :
  (export_records
     (SampleExport.env_locked
        [SampleExport.rec_declared; SampleExport.rec_ab_slash; SampleExport.rec_json])
     "sqlite:////var/pycsw/cite.db" "records" "/out" true (Return tt) ∅).2 =
    Raise (OSError "[Errno 13] Permission denied") /\
  (export_loop
     (SampleExport.env_locked
        [SampleExport.rec_declared; SampleExport.rec_ab_slash; SampleExport.rec_json])
     "/out" 1 [SampleExport.rec_ab_slash; SampleExport.rec_json]
     (mkExport ∅ ∅ [])).2 = Raise (OSError "[Errno 13] Permission denied").
Proof.
  split; [by vm_compute|].
  apply (export_loop_remove_error_leaves_loop
           (SampleExport.env_locked
              [SampleExport.rec_declared; SampleExport.rec_ab_slash;
               SampleExport.rec_json])
           "/out" 1 SampleExport.rec_ab_slash [SampleExport.rec_json]
           (mkExport ∅ ∅ []) "<Record>ab/</Record>" 10
           (OtherException "[Errno 28] No space left on device")
           (OSError "[Errno 13] Permission denied")); reflexivity.
Defined.
(* --------------------------------------------------------------------- *)
(* refresh_harvested_records: what is sent, what can fail                 *)
(* --------------------------------------------------------------------- *)

Lemma harvest_schema_not_legacy sch :
  harvest_schema sch <> "http://www.isotc211.org/2005/gmd".
Proof.
  unfold harvest_schema.
  by destruct (String.eqb_spec sch "http://www.isotc211.org/2005/gmd").
Qed.

(** X9. Whatever the repository returns and whatever the endpoint does,
    refresh_harvested_records never sends the schema identifier
    http://www.isotc211.org/2005/gmd to csw.harvest. *)
Theorem refresh_never_sends_legacy_schema (env : HarvestEnv) url src sch :
  (src, sch) ∈ harvest_calls (refresh_harvested_records env url).1 ->
  sch <> "http://www.isotc211.org/2005/gmd".
Proof.
  unfold refresh_harvested_records.
  destruct (harvest_repository env); [|by intros Hin; inversion Hin].
  destruct (repo_query env _) as [[count records]|]; [|by intros Hin; inversion Hin].
  destruct (count_int env count) as [n|]; [|by intros Hin; inversion Hin].
  destruct (0 <? n)%Z; [|by intros Hin; inversion Hin].
  destruct (csw_connect env url); cbn [fst]; [|by intros Hin; inversion Hin].
  rewrite !harvest_calls_app, harvest_calls_refresh_loop.
  intros [Hin|[Hin|Hin]%elem_of_app]%elem_of_app; [by inversion Hin..|].
  apply list_elem_of_fmap in Hin as (rec & [= -> ->] & _).
  apply harvest_schema_not_legacy.
Qed.

Lemma refresh_never_sends_legacy_schema_witness :
  "http://www.isotc211.org/schemas/2005/gmd/" <> "http://www.isotc211.org/2005/gmd".
Proof.
  apply (refresh_never_sends_legacy_schema
           (SampleHarvest.env [Sample.rec_a; SampleHarvest.rec_iso; SampleHarvest.rec_dc])
           "https://example.org/csw" "https://example.org/csw/iso.xml").
  vm_compute. list_mem.
Defined.

(** X10. An error of csw.harvest never leaves the run: whatever
    csw.harvest does for each record, refresh_harvested_records ends the
    same way, returning or raising the same error, after the same
    harvest calls in the same order; a call that raises is followed by
    the line 'Could not harvest' and the loop goes on with the next
    record. *)
Theorem refresh_harvest_errors_stay_inside (env : HarvestEnv) url harvest :
  (refresh_harvested_records (with_csw_harvest env harvest) url).2 =
    (refresh_harvested_records env url).2 /\
  harvest_calls (refresh_harvested_records (with_csw_harvest env harvest) url).1 =
    harvest_calls (refresh_harvested_records env url).1 /\
  (forall n rec records err,
     csw_harvest env n (source rec) (harvest_schema (schema rec)) = Raise err ->
     refresh_loop env n (rec :: records) =
       [Log INFO "Harvesting %s (identifier = %s) ..."
            [AStr (source rec); AStr (identifier rec)];
        CswHarvest (source rec) (harvest_schema (schema rec)) (Raise err);
        Log EXCEPTION "Could not harvest" []] ++
       refresh_loop env (S n) records).
Proof.
  split_and!.
  - unfold refresh_harvested_records, with_csw_harvest.
    cbn [harvest_repository repo_query count_int csw_connect].
    destruct (harvest_repository env); [|done].
    destruct (repo_query env _) as [[count records]|]; [|done].
    destruct (count_int env count) as [n|]; [|done].
    destruct (0 <? n)%Z; [|done]. by destruct (csw_connect env url).
  - unfold refresh_harvested_records, with_csw_harvest.
    cbn [harvest_repository repo_query count_int csw_connect].
    destruct (harvest_repository env); [|done].
    destruct (repo_query env _) as [[count records]|]; [|done].
    destruct (count_int env count) as [n|]; [|done].
    destruct (0 <? n)%Z; [|done]. destruct (csw_connect env url); [|done].
    cbn [fst]. by rewrite !harvest_calls_app, !harvest_calls_refresh_loop.
  - intros n rec records err Herr. cbn [refresh_loop]. unfold refresh_record.
    by rewrite Herr.
Qed.

Lemma refresh_harvest_errors_stay_inside_witness :
  let env := SampleHarvest.env [SampleHarvest.rec_iso; SampleHarvest.rec_dc] in
  (refresh_harvested_records env "https://example.org/csw").2 = Return tt /\
  Log EXCEPTION "Could not harvest" [] ∈
    (refresh_harvested_records env "https://example.org/csw").1.
Proof.
  cbv zeta. split.
  - rewrite <- (proj1 (refresh_harvest_errors_stay_inside
                         (SampleHarvest.env [SampleHarvest.rec_iso; SampleHarvest.rec_dc])
                         "https://example.org/csw"
                         (fun _ _ _ => Return "<csw:HarvestResponse/>"))).
    by vm_compute.
  - vm_compute. list_mem.
Defined.
(* --------------------------------------------------------------------- *)
(* setup_db: the SQLite directory check and the table name                *)
(* --------------------------------------------------------------------- *)

Lemma split_from_absent sep s :
  PyStr.contains sep s = false -> split_from sep 0 s = [s].
Proof.
  induction s as [|c s IH]; [done|].
  cbn [PyStr.contains split_from].
  destruct (PyStr.startswith sep (String c s)); [done|].
  intros Hs. by rewrite (IH Hs).
Qed.

Lemma startswith_spec p s :
  PyStr.startswith p s = true <-> exists rest, s = p +:+ rest.
Proof.
  revert s. induction p as [|a p IH]; intros s.
  - split; [by exists s|by destruct s].
  - destruct s as [|b s]; cbn [PyStr.startswith].
    + split; [done|]. by intros [rest Hrest].
    + destruct (Ascii.eqb_spec a b) as [->|Hne].
      * rewrite IH. split; intros [rest Hrest]; exists rest.
        -- by rewrite append_cons, <- Hrest.
        -- rewrite append_cons in Hrest. by injection Hrest.
      * split; [done|]. intros [rest Hrest]. rewrite append_cons in Hrest.
        injection Hrest as ? _. by subst.
Qed.

Lemma contains_slash_of_sqlite_prefix s :
  PyStr.contains "/" s = false -> PyStr.contains "sqlite:///" s = false.
Proof.
  induction s as [|c s IH]; [done|]. cbn [PyStr.contains].
  destruct (PyStr.startswith "/" (String c s)) eqn:Hslash; [done|].
  intros Hs. rewrite (IH Hs).
  destruct (PyStr.startswith "sqlite:///" (String c s)) eqn:Hpre; [|done].
  apply startswith_spec in Hpre as [rest Hrest].
  assert (PyStr.contains "/" (String c s) = true) as Hc.
  { rewrite Hrest. reflexivity. }
  cbn [PyStr.contains] in Hc. rewrite Hslash in Hc. congruence.
Qed.

Lemma py_split_sqlite_prefix filepath :
  PyStr.contains "sqlite:///" filepath = false ->
  py_split "sqlite:///" ("sqlite:///" +:+ filepath) = [EmptyString; filepath].
Proof.
  intros Hf. unfold py_split.
  change ("sqlite:///" +:+ filepath)
    with (String "s" (String "q" (String "l" (String "i" (String "t" (String "e"
           (String ":" (String "/" (String "/" (String "/" filepath)))))))))).
  cbn. by rewrite (split_from_absent _ _ Hf).
Qed.

(** X11. For a database URL that starts with sqlite:/// (and holds that
    prefix once), setup_db goes on exactly when the directory part of the
    rest of the URL exists, and raises RuntimeError naming that directory
    otherwise; for any other URL the file system is not consulted. *)
Theorem sqlite_directory_check_spec path_exists :
  (forall filepath,
     PyStr.contains "sqlite:///" filepath = false ->
     sqlite_directory_check path_exists ("sqlite:///" +:+ filepath) =
     if path_exists (os_path_dirname filepath) then Return tt
     else Raise (RuntimeError ("SQLite directory " +:+ os_path_dirname filepath +:+
                               " does not exist"))) /\
  (forall database,
     PyStr.startswith "sqlite:///" database = false ->
     sqlite_directory_check path_exists database = Return tt).
Proof.
  split.
  - intros filepath Hf. unfold sqlite_directory_check.
    by rewrite startswith_app, (py_split_sqlite_prefix _ Hf).
  - intros database Hd. unfold sqlite_directory_check. by rewrite Hd.
Qed.

Lemma sqlite_directory_check_spec_witness :
  sqlite_directory_check (fun p => String.eqb p "/var/db") "sqlite:////var/db/cite.db"
  = Return tt.
Proof.
  destruct (sqlite_directory_check_spec (fun p => String.eqb p "/var/db")) as [H _].
  apply (H "/var/db/cite.db"). reflexivity.
Defined.

(** X12. A SQLite URL that names a file without any directory, such as
    sqlite:///cite.db, is always refused: the directory part is the empty
    string, which os.path.exists reports as missing, and setup_db raises
    RuntimeError before creating anything. *)
Theorem sqlite_relative_file_refused path_exists name :
  path_exists EmptyString = false ->
  PyStr.contains "/" name = false ->
  sqlite_directory_check path_exists ("sqlite:///" +:+ name) =
  Raise (RuntimeError "SQLite directory  does not exist").
Proof.
  intros Hex Hname.
  destruct (sqlite_directory_check_spec path_exists) as [Hspec _].
  rewrite Hspec by by apply contains_slash_of_sqlite_prefix.
  assert (os_path_dirname name = EmptyString) as ->.
  { unfold os_path_dirname. destruct name as [|c name]; [done|].
    cbn [upto_last_slash]. by rewrite Hname. }
  by rewrite Hex.
Qed.

Lemma sqlite_relative_file_refused_witness :
  sqlite_directory_check (fun p => String.eqb p "/var/db") "sqlite:///cite.db" =
  Raise (RuntimeError "SQLite directory  does not exist").
Proof.
  apply (sqlite_relative_file_refused (fun p => String.eqb p "/var/db") "cite.db");
    reflexivity.
Defined.

Lemma rsplit_once_spec sep s :
  match rsplit_once sep s with
  | Some (head, tail) =>
      s = head +:+ String sep tail /\ rsplit_once sep tail = None
  | None => forall head tail, s <> head +:+ String sep tail
  end.
Proof.
  induction s as [|c s IH]; cbn [rsplit_once].
  - intros [|a head] tail; [rewrite append_nil_l|rewrite append_cons]; done.
  - destruct (rsplit_once sep s) as [[head tail]|] eqn:Hs.
    + destruct IH as [-> Htail]. by rewrite append_cons.
    + destruct (Ascii.eqb_spec c sep) as [->|Hne].
      * by rewrite append_nil_l.
      * intros [|a head] tail; [rewrite append_nil_l|rewrite append_cons].
        -- intros [= ? _]. done.
        -- intros [= _ Heq]. by apply (IH head tail).
Qed.

(** X13. The table name given to setup_db is split at its last dot:
    the table name proper holds no dot, a name without a dot has the
    empty schema, and otherwise schema, dot and table name put together
    give the name back. *)
Theorem schema_and_table_spec table schema_name table_name :
  schema_and_table table = (schema_name, table_name) ->
  (forall head tail, table_name <> head +:+ "." +:+ tail) /\
  ((forall head tail, table <> head +:+ "." +:+ tail) ->
   schema_name = EmptyString /\ table_name = table) /\
  ((exists head tail, table = head +:+ "." +:+ tail) ->
   table = schema_name +:+ "." +:+ table_name).
Proof.
  unfold schema_and_table, rpartition.
  pose proof (rsplit_once_spec "." table) as Hspec.
  destruct (rsplit_once "." table) as [[head tail]|].
  - destruct Hspec as [Htable Htail]. intros [= <- <-].
    pose proof (rsplit_once_spec "." tail) as Hnone. rewrite Htail in Hnone.
    split_and!; [done| |done].
    intros Hno. by destruct (Hno head tail).
  - intros [= <- <-]. split_and!; [done|done|].
    intros (head & tail & Heq). by destruct (Hspec head tail).
Qed.

Lemma schema_and_table_spec_witness :
  "pycsw.catalogue.records" = "pycsw.catalogue" +:+ "." +:+ "records".
Proof.
  destruct (schema_and_table_spec "pycsw.catalogue.records" "pycsw.catalogue" "records"
              eq_refl) as (_ & _ & H).
  apply H. by exists "pycsw", "catalogue.records".
Defined.

(* --------------------------------------------------------------------- *)
(* rebuild_db_indexes and optimize_db                                     *)
(* --------------------------------------------------------------------- *)

Ltac db_cases env :=
  repeat match goal with
  | |- context [db_execution_options env ?c ?n ?v] =>
      destruct (db_execution_options env c n v) as [? [[]|?]]; cbn
  | |- context [db_execute env ?c ?st] =>
      destruct (db_execute env c st) as [? [[]|?]]; cbn
  | |- context [db_close env ?c] =>
      destruct (db_close env c) as [? [[]|?]]; cbn
  | |- context [is_sqlite_signal env ?e] =>
      destruct (is_sqlite_signal env e) eqn:?; cbn
  end.

Ltac split_at_close l acc :=
  lazymatch l with
  | DbClose ?r :: _ => exists (rev' acc), r
  | ?x :: ?l' => split_at_close l' (x :: acc)
  end.

(** X14. Once optimize_db has a connection it closes it exactly once,
    after every statement and whatever the statements did; Done is logged
    after a close that returned, and an error of the close is the error
    of the command. *)
Theorem optimize_db_always_closes {Conn} (env : DbEnv Conn) database table connection :
  db_connect env database table = Return connection ->
  exists pre res,
    (optimize_db env database table).1 =
      pre ++ DbClose res :: match res with
                           | Return _ => [DbLog "Done" []]
                           | Raise _ => []
                           end /\
    Forall (fun ev => is_close ev = false) pre /\
    (forall e, res = Raise e -> (optimize_db env database table).2 = Raise e).
Proof.
  intros Hconn. unfold optimize_db. rewrite Hconn.
  unfold try_finally, try_except, bind, execution_options, execute, set_autocommit,
    close, log_info. cbn.
  db_cases env;
    match goal with |- exists pre res, ?l = _ /\ _ => split_at_close l (@nil db_event) end;
    cbn; (split_and!; [done|by repeat constructor|by intros ? [= ->]]).
Qed.

Lemma optimize_db_always_closes_witness :
  exists pre res,
    (optimize_db (SampleDb.env ["VACUUM"]) "sqlite:////var/db/cite.db" "records").1 =
      pre ++ DbClose res :: match res with
                           | Return _ => [DbLog "Done" []]
                           | Raise _ => []
                           end /\
    Forall (fun ev => is_close ev = false) pre /\
    (forall e, res = Raise e ->
       (optimize_db (SampleDb.env ["VACUUM"]) "sqlite:////var/db/cite.db" "records").2 =
       Raise e).
Proof.
  apply (optimize_db_always_closes (SampleDb.env ["VACUUM"])
           "sqlite:////var/db/cite.db" "records" 0).
  reflexivity.
Defined.

(** X15. optimize_db sends the plain VACUUM only after the isolation
    level option or VACUUM ANALYZE raised an ArgumentError or an
    OperationalError, sends ANALYZE only after that VACUUM returned, and
    sends nothing more once VACUUM ANALYZE has returned. *)
Theorem optimize_db_fallback {Conn} (env : DbEnv Conn) database table connection :
  db_connect env database table = Return connection ->
  let tr := (optimize_db env database table).1 in
  (forall res, DbExecute "VACUUM" res ∈ tr ->
     exists e, is_sqlite_signal env e = true /\
               (DbOptions "isolation_level" "AUTOCOMMIT" (Raise e) ∈ tr \/
                DbExecute "VACUUM ANALYZE" (Raise e) ∈ tr)) /\
  (forall res, DbExecute "ANALYZE" res ∈ tr -> DbExecute "VACUUM" (Return tt) ∈ tr) /\
  (DbExecute "VACUUM ANALYZE" (Return tt) ∈ tr -> statements tr = ["VACUUM ANALYZE"]).
Proof.
  intros Hconn tr. subst tr. unfold optimize_db. rewrite Hconn.
  unfold try_finally, try_except, bind, execution_options, execute, set_autocommit,
    close, log_info. cbn.
  db_cases env; split_and!.
  all: try solve [intros res H; list_not_mem H].
  all: try solve [intros H; list_not_mem H].
  all: try done.
  all: try solve [intros; list_mem].
  all: try solve [intros; eexists; split; [eassumption|];
                  first [left; solve [list_mem] | right; solve [list_mem]]].
Qed.

Lemma optimize_db_fallback_witness :
  statements (optimize_db (SampleDb.env []) "sqlite:////var/db/cite.db" "records").1 =
    ["VACUUM"; "ANALYZE"] /\
  exists e, is_sqlite_signal (SampleDb.env []) e = true /\
    (DbOptions "isolation_level" "AUTOCOMMIT" (Raise e)
       ∈ (optimize_db (SampleDb.env []) "sqlite:////var/db/cite.db" "records").1 \/
     DbExecute "VACUUM ANALYZE" (Raise e)
       ∈ (optimize_db (SampleDb.env []) "sqlite:////var/db/cite.db" "records").1).
Proof.
  split; [reflexivity|].
  destruct (optimize_db_fallback (SampleDb.env []) "sqlite:////var/db/cite.db"
              "records" 0 eq_refl) as (H & _).
  apply (H (Return tt)). vm_compute. list_mem.
Defined.

(** X16. rebuild_db_indexes sends the single statement REINDEX followed
    by the table name as given; it closes the connection only when that
    statement returned: when REINDEX raises, the error leaves the command
    and the connection is left open. *)
Theorem rebuild_db_indexes_leaves_connection_open {Conn} (env : DbEnv Conn)
    database table connection :
  db_connect env database table = Return connection ->
  let tr := (rebuild_db_indexes env database table).1 in
  statements tr = ["REINDEX " +:+ table] /\
  ((exists r, DbClose r ∈ tr) <->
   DbExecute ("REINDEX " +:+ table) (Return tt) ∈ tr) /\
  (forall e, DbExecute ("REINDEX " +:+ table) (Raise e) ∈ tr ->
     (rebuild_db_indexes env database table).2 = Raise e /\
     forall r, DbClose r ∉ tr).
Proof.
  intros Hconn tr. subst tr. unfold rebuild_db_indexes. rewrite Hconn.
  unfold bind, execute, set_autocommit, close, log_info. cbn.
  db_cases env; split_and!; try done.
  all: try solve [split; [intros _; list_mem|intros _; eexists; list_mem]].
  all: try solve [intros e' H; list_not_mem H].
  - split; [intros [r H]|intros H]; list_not_mem H.
  - intros e' H. apply elem_of_cons in H as [H|H]; [discriminate|].
    apply elem_of_cons in H as [H|H]; [discriminate|].
    apply elem_of_cons in H as [H|H]; [|by inversion H].
    injection H as <-. split; [done|]. intros r Hr. list_not_mem Hr.
Qed.

Lemma rebuild_db_indexes_leaves_connection_open_witness :
  (rebuild_db_indexes (SampleDb.env ["REINDEX records"]) "sqlite:////var/db/cite.db"
                      "records").2 = Raise SampleDb.operational_error /\
  forall r, DbClose r ∉ (rebuild_db_indexes (SampleDb.env ["REINDEX records"])
                           "sqlite:////var/db/cite.db" "records").1.
Proof.
  destruct (rebuild_db_indexes_leaves_connection_open (SampleDb.env ["REINDEX records"])
              "sqlite:////var/db/cite.db" "records" 0 eq_refl) as (_ & _ & H).
  apply (H SampleDb.operational_error). vm_compute. list_mem.
Defined.

(* --------------------------------------------------------------------- *)
(* validate_xml                                                           *)
(* --------------------------------------------------------------------- *)

(** X17. validate_xml builds the schema and then only parses the
    document: it returns Valid exactly when the schema file loads and the
    document is well formed, also for a document that the schema does not
    accept.  An error of the schema file is raised as it is, an error of
    the parse as RuntimeError. *)
Theorem validate_xml_only_parses (env : ValidateEnv) xml_ xsd :
  ((validate_xml env xml_ xsd).2 = Return "Valid" <->
   (exists schema_, xmlschema env xsd = Return schema_) /\
   (exists doc, parse_with_parser env xml_ = Return doc)) /\
  (forall schema_ doc,
     xmlschema env xsd = Return schema_ ->
     parse_with_parser env xml_ = Return doc ->
     schema_ doc = false ->
     (validate_xml env xml_ xsd).2 = Return "Valid") /\
  (forall e,
     (validate_xml env xml_ xsd).2 = Raise e ->
     xmlschema env xsd = Raise e \/
     exists err, parse_with_parser env xml_ = Raise err /\
                 e = RuntimeError ("ERROR: " +:+ exn_str env err)).
Proof.
  unfold validate_xml.
  destruct (xmlschema env xsd) as [schema_|e0];
    [destruct (parse_with_parser env xml_) as [doc|err]|]; cbn [snd]; split_and!.
  - split; [eauto|done].
  - done.
  - done.
  - split; [done|]. by intros [_ [doc ?]].
  - done.
  - intros e [= <-]. right. by exists err.
  - split; [done|]. by intros [[schema_ ?] _].
  - done.
  - intros e [= <-]. by left.
Qed.

Lemma validate_xml_only_parses_witness :
  (validate_xml strict_env "a.xml" "schema.xsd").2 = Return "Valid".
Proof.
  destruct (validate_xml_only_parses strict_env "a.xml" "schema.xsd") as (_ & H & _).
  apply (H (fun _ => false) (XmlDoc "a.xml")); reflexivity.
Defined.

(* --------------------------------------------------------------------- *)
(* gen_sitemap                                                            *)
(* --------------------------------------------------------------------- *)

Section SitemapFacts.

Context (env : SitemapEnv).

Lemma add_url_children url urlset rec :
  children_of (add_url env url urlset rec) =
  children_of urlset ++ [url_element env url rec].
Proof. by destruct urlset. Qed.

Lemma fold_add_url_children url records : forall urlset,
  children_of (fold_left (add_url env url) records urlset) =
  children_of urlset ++ (url_element env url <$> records).
Proof.
  induction records as [|rec records IH]; intros urlset; cbn [fold_left].
  - by rewrite app_nil_r.
  - by rewrite IH, add_url_children, <- app_assoc.
Qed.

Lemma sitemap_tree_children url :
  children_of (sitemap_tree env url) = url_element env url <$> (query_all env).2.
Proof. unfold sitemap_tree. by rewrite fold_add_url_children. Qed.

Lemma sitemap_tree_locs url :
  sitemap_locs (sitemap_tree env url) = sitemap_uri url <$> (query_all env).2.
Proof.
  unfold sitemap_locs. rewrite sitemap_tree_children.
  induction (query_all env).2 as [|rec records IH]; [done|].
  rewrite !fmap_cons, bind_cons, IH. done.
Qed.

End SitemapFacts.

(** X18. The sitemap has one url element per record that the query
    returned, in the order of the query; each holds a single loc element
    whose text is the service URL, the GetRepositoryItem query string
    and the identifier of the record as it is stored. *)
Theorem gen_sitemap_lists_every_record (env : SitemapEnv) url :
  let urlset := sitemap_tree env url in
  length (children_of urlset) = length (query_all env).2 /\
  Forall (fun url_ => tag_of url_ = nspath_eval env "sitemap:url" /\
                      length (children_of url_) = 1) (children_of urlset) /\
  sitemap_locs urlset =
    (fun rec => url +:+ "?service=CSW&version=2.0.2&request=GetRepositoryItem&id=" +:+
                identifier rec) <$> (query_all env).2.
Proof.
  intros urlset. subst urlset. split_and!.
  - by rewrite sitemap_tree_children, length_fmap.
  - rewrite sitemap_tree_children. apply Forall_fmap, Forall_forall. by intros rec _.
  - apply sitemap_tree_locs.
Qed.

(** X19. Records with distinct identifiers get distinct locations in the
    sitemap. *)
Theorem gen_sitemap_distinct_locations (env : SitemapEnv) url :
  NoDup (identifier <$> (query_all env).2) ->
  NoDup (sitemap_locs (sitemap_tree env url)).
Proof.
  intros Hnd. rewrite sitemap_tree_locs.
  change (sitemap_uri url) with
    ((fun id => url +:+ "?service=CSW&version=2.0.2&request=GetRepositoryItem&id=" +:+ id)
       ∘ identifier).
  rewrite list_fmap_compose. apply NoDup_fmap_2; [|done].
  intros id1 id2 H%append_inj_r. by apply append_inj_r in H.
Qed.

Lemma gen_sitemap_distinct_locations_witness :
  NoDup (sitemap_locs (sitemap_tree (sample_sitemap_env [Sample.rec_a; Sample.rec_c])
                                    "https://example.org/csw")).
Proof.
  apply (gen_sitemap_distinct_locations
           (sample_sitemap_env [Sample.rec_a; Sample.rec_c]) "https://example.org/csw").
  vm_compute. repeat (apply NoDup_cons; split; [intros H; list_not_mem H|]).
  apply NoDup_nil. done.
Defined.
